(** * OpenWork session synchronizer: a shallow embedding and its properties

    The definitions below transcribe the state-store primitives, the model
    resolver, the permission reconciliation, the health probe and the event
    subscription loops of the OpenWork clients (the desktop [App.tsx], the
    Chrome-extension [App.tsx] and [lib/opencode.ts]).  JavaScript strings are
    sequences of UTF-16 code units, arrays are lists, objects used as
    dictionaries are finite maps, and every [await] splits an async function
    into the continuations that run when the awaited call settles. *)

From Stdlib Require Import ZArith NArith Lia String Ascii.
From stdpp Require Import base option list gmap.

Open Scope N_scope.
Open Scope Z_scope.
Open Scope nat_scope.

(** ** JavaScript strings *)

(** A JavaScript string is a sequence of 16-bit code units. *)
Abbreviation jsstring := (list N).

Module Js.

(** Code units of an ASCII literal. *)
Definition lit (s : string) : jsstring :=
  map N_of_ascii (list_ascii_of_string s).

(** [!s] on a string: only the empty string is falsy. *)
Definition falsy (s : jsstring) : bool :=
  match s with [] => true | _ :: _ => false end.

(** WhiteSpace and LineTerminator code units, the set [String.prototype.trim]
    strips. *)
Definition is_whitespace (c : N) : bool :=
  ((9 <=? c) && (c <=? 13) || (c =? 32) || (c =? 160) || (c =? 5760)
   || (8192 <=? c) && (c <=? 8202) || (c =? 8232) || (c =? 8233)
   || (c =? 8239) || (c =? 8287) || (c =? 12288) || (c =? 65279))%N.

Fixpoint dropWhile (p : N -> bool) (s : jsstring) : jsstring :=
  match s with
  | [] => []
  | c :: s' => if p c then dropWhile p s' else s
  end.

Definition trimStart (s : jsstring) : jsstring := dropWhile is_whitespace s.
Definition trimEnd (s : jsstring) : jsstring :=
  rev (dropWhile is_whitespace (rev s)).

(** [s.trim()] *)
Definition trim (s : jsstring) : jsstring := trimEnd (trimStart s).

(** [s.split(sep)] for a separator of one code unit; the result always has
    at least one piece. *)
Fixpoint split (sep : N) (s : jsstring) : list jsstring :=
  match s with
  | [] => [[]]
  | c :: s' =>
      if (c =? sep)%N then [] :: split sep s'
      else match split sep s' with
           | [] => [[c]]
           | piece :: pieces => (c :: piece) :: pieces
           end
  end.

(** [pieces.join(sep)] *)
Fixpoint join (sep : jsstring) (pieces : list jsstring) : jsstring :=
  match pieces with
  | [] => []
  | [piece] => piece
  | piece :: rest => piece ++ sep ++ join sep rest
  end.

(** [s.startsWith(prefix)] *)
Fixpoint startsWith (prefix s : jsstring) : bool :=
  match prefix, s with
  | [], _ => true
  | _ :: _, [] => false
  | p :: prefix', c :: s' => (p =? c)%N && startsWith prefix' s'
  end.

(** [s.toLowerCase()] on the ASCII letters, the ones a search for an ASCII
    word can depend on. *)
Definition toLowerCase (s : jsstring) : jsstring :=
  map (fun c => if ((65 <=? c) && (c <=? 90))%N then (c + 32)%N else c) s.

(** [s.includes(needle)] *)
Fixpoint includes (needle s : jsstring) : bool :=
  startsWith needle s ||
  match s with
  | [] => false
  | _ :: s' => includes needle s'
  end.

Definition slash : N := 47%N.
Definition newline : N := 10%N.

Definition starts_with_whitespace (s : jsstring) : bool :=
  match s with [] => false | c :: _ => is_whitespace c end.
Definition ends_with_whitespace (s : jsstring) : bool :=
  starts_with_whitespace (rev s).

End Js.

(** ** Data model *)

Record ModelRef := mkModelRef {
  providerID : jsstring;
  modelID : jsstring
}.

Inductive Role := user | assistant.

(** The fields of the SDK's [Session] the clients read, with the remaining
    payload kept as the title, slug and update time of the data model. *)
Record Session := mkSession {
  session_id : jsstring;
  session_title : jsstring;
  session_slug : jsstring;
  session_updatedAt : Z
}.

(** The SDK's [Message]: [model] is carried by user messages only. *)
Record Message := mkMessage {
  message_id : jsstring;
  message_sessionID : jsstring;
  message_role : Role;
  message_model : option ModelRef
}.

Inductive PartType := text | reasoning | tool | step_start | step_finish.

(** The SDK's [Part]; [part_state] stands for the type-specific payload. *)
Record Part := mkPart {
  part_id : jsstring;
  part_sessionID : jsstring;
  part_messageID : jsstring;
  part_type : PartType;
  part_state : jsstring
}.

Record MessageWithParts := mkMessageWithParts {
  info : Message;
  parts : list Part
}.

Record TodoItem := mkTodoItem {
  todo_id : jsstring;
  todo_content : jsstring;
  todo_status : jsstring;
  todo_priority : jsstring
}.

(** The SDK's [PermissionRequest], as listed by the server. *)
Record ApiPermissionRequest := mkApiPermissionRequest {
  permission_id : jsstring;
  permission_sessionID : jsstring;
  permission_name : jsstring;
  permission_patterns : list jsstring
}.

(** [PendingPermission = ApiPermissionRequest & { receivedAt: number }] *)
Record PendingPermission := mkPendingPermission {
  request : ApiPermissionRequest;
  receivedAt : Z
}.

(** ** Model references *)

Definition ZEN_PROVIDER_ID : jsstring := Js.lit "opencode".

Definition DEFAULT_MODEL : ModelRef :=
  {| providerID := ZEN_PROVIDER_ID; modelID := Js.lit "gpt-5-nano" |}.

Definition formatModelRef (model : ModelRef) : jsstring :=
  providerID model ++ [Js.slash] ++ modelID model.

(** [raw] is [string | null]; [None] is [null]. *)
Definition parseModelRef (raw : option jsstring) : option ModelRef :=
  match raw with
  | None => None
  | Some raw =>
      if Js.falsy raw then None
      else
        let trimmed := Js.trim raw in
        if Js.falsy trimmed then None
        else
          match Js.split Js.slash trimmed with
          | [] => None
          | providerID :: rest =>
              if Js.falsy providerID || (length rest =? 0) then None
              else Some {| providerID := providerID;
                           modelID := Js.join [Js.slash] rest |}
          end
  end.

Definition modelEquals (a b : ModelRef) : bool :=
  bool_decide (providerID a = providerID b) && bool_decide (modelID a = modelID b).

(** ** State-store primitives *)

(** [list.findIndex(p)]: [None] stands for [-1]. *)
Fixpoint findIndex {A} (p : A -> bool) (l : list A) : option nat :=
  match l with
  | [] => None
  | x :: l' => if p x then Some 0 else S <$> findIndex p l'
  end.

Definition same_id (a b : jsstring) : bool := bool_decide (a = b).

Definition upsertSession (l : list Session) (next : Session) : list Session :=
  match findIndex (fun s => same_id (session_id s) (session_id next)) l with
  | None => l ++ [next]
  | Some idx => <[idx := next]> l
  end.

Definition upsertMessage (l : list MessageWithParts) (nextInfo : Message)
  : list MessageWithParts :=
  match findIndex (fun m => same_id (message_id (info m)) (message_id nextInfo)) l with
  | None => l ++ [{| info := nextInfo; parts := [] |}]
  | Some idx =>
      match l !! idx with
      | Some old => <[idx := {| info := nextInfo; parts := parts old |}]> l
      | None => l
      end
  end.

Definition upsertPart (l : list MessageWithParts) (nextPart : Part)
  : list MessageWithParts :=
  match findIndex (fun m => same_id (message_id (info m)) (part_messageID nextPart)) l with
  | None => l
  | Some msgIdx =>
      match l !! msgIdx with
      | Some msg =>
          let parts' :=
            match findIndex (fun p => same_id (part_id p) (part_id nextPart)) (parts msg) with
            | None => parts msg ++ [nextPart]
            | Some partIdx => <[partIdx := nextPart]> (parts msg)
            end in
          <[msgIdx := {| info := info msg; parts := parts' |}]> l
      | None => l
      end
  end.

Definition removePart (l : list MessageWithParts) (messageID partID : jsstring)
  : list MessageWithParts :=
  match findIndex (fun m => same_id (message_id (info m)) messageID) l with
  | None => l
  | Some msgIdx =>
      match l !! msgIdx with
      | Some msg =>
          <[msgIdx := {| info := info msg;
                         parts := filter (fun p => part_id p ≠ partID) (parts msg) |}]> l
      | None => l
      end
  end.

(** [sessions().find((s) => s.id === id)] *)
Definition findSession (id : jsstring) (l : list Session) : option Session :=
  find (fun s => same_id (session_id s) id) l.

Definition findMessage (id : jsstring) (l : list MessageWithParts)
  : option MessageWithParts :=
  find (fun m => same_id (message_id (info m)) id) l.

Definition modelFromUserMessage (i : Message) : option ModelRef :=
  match message_role i with
  | user => message_model i
  | assistant => None
  end.

(** The backward scan [for (i = list.length - 1; i >= 0; i -= 1)]. *)
Fixpoint lastUserModelFromMessages_from (i : nat) (l : list MessageWithParts)
  : option ModelRef :=
  match i with
  | O => None
  | S j =>
      match l !! j with
      | Some m =>
          match modelFromUserMessage (info m) with
          | Some model => Some model
          | None => lastUserModelFromMessages_from j l
          end
      | None => lastUserModelFromMessages_from j l
      end
  end.

Definition lastUserModelFromMessages (l : list MessageWithParts) : option ModelRef :=
  lastUserModelFromMessages_from (length l) l.

(** ** Server calls *)

(** A value that was thrown or carried in the [error] field of a result: an
    [Error] object, a string, or another value, which has no [name] and comes
    with what [JSON.stringify] ([None] for [undefined]) and [String] make of it. *)
Inductive Thrown :=
| ErrorObject (name message : jsstring)
| StringValue (s : jsstring)
| OtherValue (stringified : option jsstring) (asString : jsstring).

(** The SDK's result object: [data] or [error]. *)
Inductive FieldsResult (T : Type) :=
| Data (data : T)
| Failure (error : Thrown).
Arguments Data {T} data.
Arguments Failure {T} error.

(** What an [await] gives back: the promise is fulfilled or rejected. *)
Inductive Settled (T : Type) :=
| Fulfilled (result : FieldsResult T)
| Rejected (reason : Thrown).
Arguments Fulfilled {T} result.
Arguments Rejected {T} reason.

(** A computation returns or throws. *)
Inductive Outcome (T : Type) :=
| Return (value : T)
| Throw (thrown : Thrown).
Arguments Return {T} value.
Arguments Throw {T} thrown.

(** [a || b] on strings where [a] may be [undefined]. *)
Definition or_string (a : option jsstring) (b : jsstring) : jsstring :=
  match a with
  | Some (c :: s) => c :: s
  | _ => b
  end.

Definition unwrap {T} (result : FieldsResult T) : Outcome T :=
  match result with
  | Data data => Return data
  | Failure error =>
      let message :=
        match error with
        | ErrorObject _ message => Some message
        | StringValue s => Some s
        | OtherValue stringified _ => stringified
        end in
      Throw (ErrorObject (Js.lit "Error") (or_string message (Js.lit "Unknown error")))
  end.

(** [unwrap(await call)] *)
Definition unwrap_await {T} (settled : Settled T) : Outcome T :=
  match settled with
  | Fulfilled result => unwrap result
  | Rejected reason => Throw reason
  end.

(** [e instanceof Error ? e.message : fallback] *)
Definition error_message_or (e : Thrown) (fallback : jsstring) : jsstring :=
  match e with
  | ErrorObject _ message => message
  | _ => fallback
  end.

(** ** Health probe ([lib/opencode.ts]) *)

Record Health := mkHealth {
  healthy : bool;
  version : jsstring
}.

Module HealthProbe.
Section Probe.

(** [timeoutMs], the reading of [Date.now()] stored in [start], the reading
    taken by the k-th evaluation of the loop condition, and the way the k-th
    call of [client.global.health()] settles. *)
Variable timeoutMs : Z.
Variable start : Z.
Variable now : nat -> Z.
Variable poll : nat -> Settled Health.

(** What one attempt leaves in [lastError]; [None] when it reported healthy. *)
Definition failure_reason (attempt : Settled Health) : option jsstring :=
  match unwrap_await attempt with
  | Return health =>
      if healthy health then None
      else Some (Js.lit "Server reported unhealthy")
  | Throw error => Some (error_message_or error (Js.lit "Unknown error"))
  end.

(** [new Error(lastError ?? "Timed out waiting for server health")] *)
Definition timeout_error (lastError : option jsstring) : Thrown :=
  ErrorObject (Js.lit "Error")
    (match lastError with
     | Some reason => reason
     | None => Js.lit "Timed out waiting for server health"
     end).

(** The [while] loop from its k-th iteration on; [None] when [fuel]
    iterations did not finish it. *)
Fixpoint loop (fuel : nat) (k : nat) (lastError : option jsstring)
  : option (Outcome Health) :=
  match fuel with
  | O => None
  | S fuel' =>
      if (now k - start <? timeoutMs)%Z then
        match unwrap_await (poll k) with
        | Return health =>
            if healthy health then Some (Return health)
            else loop fuel' (S k) (Some (Js.lit "Server reported unhealthy"))
        | Throw error =>
            loop fuel' (S k) (Some (error_message_or error (Js.lit "Unknown error")))
        end
      else Some (Throw (timeout_error lastError))
  end.

Definition waitForHealthy (fuel : nat) : option (Outcome Health) :=
  loop fuel 0 None.

End Probe.
End HealthProbe.

(** ** Application state ([App.tsx], both clients) *)

Record Client := mkClient { client_baseUrl : jsstring }.

(** The signals of [App] the synchronizer reads and writes. The two objects
    keyed by session id are finite maps: a session id is never the name of a
    member of [Object.prototype]. *)
Record Store := mkStore {
  client : option Client;
  sessions : list Session;
  selectedSessionId : option jsstring;
  messages : list MessageWithParts;
  todos : list TodoItem;
  pendingPermissions : list PendingPermission;
  prompt : jsstring;
  sessionModelOverrideById : gmap jsstring ModelRef;
  sessionModelById : gmap jsstring ModelRef;
  defaultModel : ModelRef;
  busy : bool;
  error : option jsstring
}.

Definition setSessions (v : list Session) (st : Store) : Store :=
  mkStore (client st) v (selectedSessionId st) (messages st) (todos st)
    (pendingPermissions st) (prompt st) (sessionModelOverrideById st)
    (sessionModelById st) (defaultModel st) (busy st) (error st).

Definition setSelectedSessionId (v : option jsstring) (st : Store) : Store :=
  mkStore (client st) (sessions st) v (messages st) (todos st)
    (pendingPermissions st) (prompt st) (sessionModelOverrideById st)
    (sessionModelById st) (defaultModel st) (busy st) (error st).

Definition setMessages (v : list MessageWithParts) (st : Store) : Store :=
  mkStore (client st) (sessions st) (selectedSessionId st) v (todos st)
    (pendingPermissions st) (prompt st) (sessionModelOverrideById st)
    (sessionModelById st) (defaultModel st) (busy st) (error st).

Definition setTodos (v : list TodoItem) (st : Store) : Store :=
  mkStore (client st) (sessions st) (selectedSessionId st) (messages st) v
    (pendingPermissions st) (prompt st) (sessionModelOverrideById st)
    (sessionModelById st) (defaultModel st) (busy st) (error st).

Definition setPendingPermissions (v : list PendingPermission) (st : Store) : Store :=
  mkStore (client st) (sessions st) (selectedSessionId st) (messages st) (todos st)
    v (prompt st) (sessionModelOverrideById st)
    (sessionModelById st) (defaultModel st) (busy st) (error st).

Definition setPrompt (v : jsstring) (st : Store) : Store :=
  mkStore (client st) (sessions st) (selectedSessionId st) (messages st) (todos st)
    (pendingPermissions st) v (sessionModelOverrideById st)
    (sessionModelById st) (defaultModel st) (busy st) (error st).

Definition setSessionModelOverrideById (v : gmap jsstring ModelRef) (st : Store) : Store :=
  mkStore (client st) (sessions st) (selectedSessionId st) (messages st) (todos st)
    (pendingPermissions st) (prompt st) v
    (sessionModelById st) (defaultModel st) (busy st) (error st).

Definition setSessionModelById (v : gmap jsstring ModelRef) (st : Store) : Store :=
  mkStore (client st) (sessions st) (selectedSessionId st) (messages st) (todos st)
    (pendingPermissions st) (prompt st) (sessionModelOverrideById st)
    v (defaultModel st) (busy st) (error st).

Definition setDefaultModel (v : ModelRef) (st : Store) : Store :=
  mkStore (client st) (sessions st) (selectedSessionId st) (messages st) (todos st)
    (pendingPermissions st) (prompt st) (sessionModelOverrideById st)
    (sessionModelById st) v (busy st) (error st).

Definition setBusy (v : bool) (st : Store) : Store :=
  mkStore (client st) (sessions st) (selectedSessionId st) (messages st) (todos st)
    (pendingPermissions st) (prompt st) (sessionModelOverrideById st)
    (sessionModelById st) (defaultModel st) v (error st).

Definition setError (v : option jsstring) (st : Store) : Store :=
  mkStore (client st) (sessions st) (selectedSessionId st) (messages st) (todos st)
    (pendingPermissions st) (prompt st) (sessionModelOverrideById st)
    (sessionModelById st) (defaultModel st) (busy st) v.

(** *** Model resolver *)

(** The memo [selectedSessionModel]. *)
Definition selectedSessionModel (st : Store) : ModelRef :=
  match selectedSessionId st with
  | None => defaultModel st
  | Some id =>
      if Js.falsy id then defaultModel st
      else
        match sessionModelOverrideById st !! id with
        | Some override => override
        | None =>
            match sessionModelById st !! id with
            | Some known => known
            | None =>
                match lastUserModelFromMessages (messages st) with
                | Some fromMessages => fromMessages
                | None => defaultModel st
                end
            end
        end
  end.

Inductive PickerTarget := target_session | target_default.

Definition applyModelSelection (target : PickerTarget) (next : ModelRef) (st : Store)
  : Store :=
  match target with
  | target_default => setDefaultModel next st
  | target_session =>
      match selectedSessionId st with
      | None => st
      | Some id =>
          if Js.falsy id then st
          else setSessionModelOverrideById (<[id := next]> (sessionModelOverrideById st)) st
      end
  end.

(** The updater that drops the override of [sessionID]. *)
Definition clearOverride (sessionID : jsstring) (current : gmap jsstring ModelRef)
  : gmap jsstring ModelRef :=
  match current !! sessionID with
  | None => current
  | Some _ => delete sessionID current
  end.

(** *** Permission reconciliation *)

(** [new Map(current.map((p) => [p.id, p]))]: a later entry with the same id
    replaces an earlier one. *)
Definition byId (current : list PendingPermission) : gmap jsstring PendingPermission :=
  fold_left (fun m p => <[permission_id (request p) := p]> m) current ∅.

(** The updater of [refreshPendingPermissions], with [now] the reading of
    [Date.now()] it takes. *)
Definition reconcilePermissions (current : list PendingPermission)
    (listed : list ApiPermissionRequest) (now : Z) : list PendingPermission :=
  let byId := byId current in
  map (fun p =>
         {| request := p;
            receivedAt := match byId !! permission_id p with
                          | Some old => receivedAt old
                          | None => now
                          end |}) listed.

(** *** Async actions

    An async function runs up to its next [await] and then waits; the
    continuation after the [await] is a [Task] that keeps the local variables it
    captured, and runs when the awaited call settles. *)

Inductive Task :=
| SelectSession_messages (sessionID : jsstring)
| SelectSession_todo (sessionID : jsstring)
| SelectSession_permissions (sessionID : jsstring)
| SendPrompt_prompt (sessionID : jsstring) (model : ModelRef)
| SendPrompt_messages (sessionID : jsstring)
| SendPrompt_todo (sessionID : jsstring)
| SendPrompt_sessions (sessionID : jsstring).

(** How the awaited call settled; the permission list comes with the reading
    of [Date.now()] taken by the updater. *)
Inductive Response :=
| MessagesResponse (settled : Settled (list MessageWithParts))
| TodoResponse (settled : Settled (list TodoItem))
| PermissionsResponse (settled : Settled (list ApiPermissionRequest)) (now : Z)
| PromptResponse (settled : Settled unit)
| SessionsResponse (settled : Settled (list Session)).

Section Actions.

(** [safeStringify], used for values that are not [Error] objects. *)
Variable safeStringify : Thrown -> jsstring.

(** [selectSession(sessionID)] up to [await c.session.messages({ sessionID })]. *)
Definition selectSession (sessionID : jsstring) (st : Store) : Store * option Task :=
  match client st with
  | None => (st, None)
  | Some _ =>
      (setError None (setSelectedSessionId (Some sessionID) st),
       Some (SelectSession_messages sessionID))
  end.

(** [setSessionModelById] followed by [setSessionModelOverrideById], as
    [selectSession] does with the model inferred from the history and
    [sendPrompt] with the model it sent: [model] becomes the last-known model
    of [sessionID] and the override of [sessionID] is dropped. *)
Definition rememberModel (sessionID : jsstring) (model : ModelRef) (st : Store) : Store :=
  let st1 := setSessionModelById (<[sessionID := model]> (sessionModelById st)) st in
  setSessionModelOverrideById (clearOverride sessionID (sessionModelOverrideById st1)) st1.

(** [sendPrompt()] up to [await c.session.prompt(...)]. *)
Definition sendPrompt (st : Store) : Store * option Task :=
  match client st, selectedSessionId st with
  | Some _, Some sessionID =>
      if Js.falsy sessionID then (st, None)
      else
        let content := Js.trim (prompt st) in
        if Js.falsy content then (st, None)
        else
          let st1 := setError None (setBusy true st) in
          let st2 := setPrompt [] st1 in
          let model := selectedSessionModel st2 in
          (st2, Some (SendPrompt_prompt sessionID model))
  | _, _ => (st, None)
  end.

(** The [catch] and [finally] blocks of [sendPrompt]. *)
Definition sendPrompt_failed (e : Thrown) (st : Store) : Store :=
  setBusy false (setError (Some (error_message_or e (safeStringify e))) st).

(** The continuation [task] run on [response]; [None] when the response is
    not the one the task awaits. The second component is the next [await],
    if the function has not finished. *)
Definition resume (task : Task) (response : Response) (st : Store)
  : option (Store * option Task) :=
  match task, response with
  | SelectSession_messages sessionID, MessagesResponse settled =>
      match unwrap_await settled with
      | Throw _ => Some (st, None)
      | Return msgs =>
          let st1 := setMessages msgs st in
          let st2 := match lastUserModelFromMessages msgs with
                     | Some model => rememberModel sessionID model st1
                     | None => st1
                     end in
          Some (st2, Some (SelectSession_todo sessionID))
      end
  | SelectSession_todo sessionID, TodoResponse settled =>
      match unwrap_await settled with
      | Return items => Some (setTodos items st, Some (SelectSession_permissions sessionID))
      | Throw _ => Some (setTodos [] st, Some (SelectSession_permissions sessionID))
      end
  | SelectSession_permissions sessionID, PermissionsResponse settled now =>
      match unwrap_await settled with
      | Return listed =>
          Some (setPendingPermissions
                  (reconcilePermissions (pendingPermissions st) listed now) st, None)
      | Throw _ => Some (st, None)
      end
  | SendPrompt_prompt sessionID model, PromptResponse settled =>
      match unwrap_await settled with
      | Return _ => Some (rememberModel sessionID model st, Some (SendPrompt_messages sessionID))
      | Throw e => Some (sendPrompt_failed e st, None)
      end
  | SendPrompt_messages sessionID, MessagesResponse settled =>
      match unwrap_await settled with
      | Return msgs => Some (setMessages msgs st, Some (SendPrompt_todo sessionID))
      | Throw e => Some (sendPrompt_failed e st, None)
      end
  | SendPrompt_todo sessionID, TodoResponse settled =>
      match unwrap_await settled with
      | Return items => Some (setTodos items st, Some (SendPrompt_sessions sessionID))
      | Throw _ => Some (setTodos [] st, Some (SendPrompt_sessions sessionID))
      end
  | SendPrompt_sessions sessionID, SessionsResponse settled =>
      match unwrap_await settled with
      | Return listed => Some (setBusy false (setSessions listed st), None)
      | Throw e => Some (sendPrompt_failed e st, None)
      end
  | _, _ => None
  end.

(** The session id a task was issued for. *)
Definition task_session (task : Task) : jsstring :=
  match task with
  | SelectSession_messages sessionID
  | SelectSession_todo sessionID
  | SelectSession_permissions sessionID
  | SendPrompt_prompt sessionID _
  | SendPrompt_messages sessionID
  | SendPrompt_todo sessionID
  | SendPrompt_sessions sessionID => sessionID
  end.

(** The store together with the continuations that wait for a response. *)
Record World := mkWorld {
  store : Store;
  inflight : list Task
}.

Inductive Action :=
| DoSelectSession (sessionID : jsstring)
| DoSendPrompt
| DoApplyModelSelection (target : PickerTarget) (next : ModelRef)
| Settle (i : nat) (response : Response).

Definition launch (started : Store * option Task) (waiting : list Task) : World :=
  {| store := started.1;
     inflight := match started.2 with
                 | Some task => waiting ++ [task]
                 | None => waiting
                 end |}.

Definition step (w : World) (a : Action) : World :=
  match a with
  | DoSelectSession sessionID => launch (selectSession sessionID (store w)) (inflight w)
  | DoSendPrompt => launch (sendPrompt (store w)) (inflight w)
  | DoApplyModelSelection target next =>
      {| store := applyModelSelection target next (store w); inflight := inflight w |}
  | Settle i response =>
      match inflight w !! i with
      | None => w
      | Some task =>
          match resume task response (store w) with
          | None => w
          | Some (st, Some next) => {| store := st; inflight := <[i := next]> (inflight w) |}
          | Some (st, None) => {| store := st; inflight := delete i (inflight w) |}
          end
      end
  end.

Definition run (w : World) (actions : list Action) : World :=
  fold_left step actions w.

End Actions.

(** ** Event records *)

(** A parsed JSON value; the loops never inspect a number. *)
#[warnings="-register-all"]
Inductive Json :=
| JNull
| JBool (b : bool)
| JNumber (n : Z)
| JString (s : jsstring)
| JArray (items : list Json)
| JObject (fields : list (jsstring * Json)).

Record OpencodeEvent := mkEvent {
  event_type : jsstring;
  event_properties : option Json
}.

(** [record.key]; [None] is [undefined]. The keys of a parsed object are
    pairwise distinct. *)
Definition get (key : jsstring) (record : Json) : option Json :=
  match record with
  | JObject fields => snd <$> find (fun kv => same_id kv.1 key) fields
  | _ => None
  end.

(** [raw && typeof raw === "object"] *)
Definition is_object (raw : Json) : bool :=
  match raw with
  | JArray _ | JObject _ => true
  | _ => false
  end.

Definition normalizeEvent (raw : Json) : option OpencodeEvent :=
  if negb (is_object raw) then None
  else
    match get (Js.lit "type") raw with
    | Some (JString t) =>
        Some {| event_type := t; event_properties := get (Js.lit "properties") raw |}
    | _ =>
        match get (Js.lit "payload") raw with
        | Some payload =>
            if is_object payload then
              match get (Js.lit "type") payload with
              | Some (JString t) =>
                  Some {| event_type := t;
                          event_properties := get (Js.lit "properties") payload |}
              | _ => None
              end
            else None
        | None => None
        end
    end.

(** ** Event subscription *)

(** The signals the subscription effect itself writes. *)
Record Live := mkLive {
  sseConnected : bool;
  events : list OpencodeEvent;
  live_error : option jsstring
}.

Definition setSseConnected (v : bool) (lv : Live) : Live :=
  mkLive v (events lv) (live_error lv).
Definition setEvents (v : list OpencodeEvent) (lv : Live) : Live :=
  mkLive (sseConnected lv) v (live_error lv).
Definition setLiveError (v : option jsstring) (lv : Live) : Live :=
  mkLive (sseConnected lv) (events lv) v.

(** The Chrome-extension client reads the response body itself. *)
Module Extension.

Inductive ReadResult :=
| ReadChunk (decoded : jsstring)
| ReadDone
| ReadRejected (reason : Thrown).

(** How [event.subscribe] settled and, with a body, the reads that have
    settled so far. *)
Inductive Subscription :=
| SubRejected (reason : Thrown)
| SubNoBody
| SubBody (reads : list ReadResult).

Section Subscribe.

(** [JSON.parse]; [None] when it throws. *)
Variable JSON_parse : jsstring -> option Json.

(** [prev.slice(-50)] *)
Definition slice_last (n : nat) {A} (l : list A) : list A :=
  drop (length l - n) l.

(** The body of [for (const line of lines)], as far as the three signals go. *)
Definition onLine (lv : Live) (line : jsstring) : Live :=
  if negb (Js.startsWith (Js.lit "data:") line) then lv
  else
    let raw := Js.trim (drop 5 line) in
    if Js.falsy raw || bool_decide (raw = Js.lit "[DONE]") then lv
    else
      match JSON_parse raw with
      | None => lv
      | Some parsed =>
          match normalizeEvent parsed with
          | None => lv
          | Some evt => setEvents (slice_last 50 (events lv) ++ [evt]) lv
          end
      end.

(** [(e as Error).name === "AbortError"] *)
Definition isAbortError (e : Thrown) : bool :=
  match e with
  | ErrorObject name _ => bool_decide (name = Js.lit "AbortError")
  | _ => false
  end.

(** The outer [catch]. *)
Definition onError (e : Thrown) (lv : Live) : Live :=
  if isAbortError e then lv else setSseConnected false lv.

Definition is_chunk (r : ReadResult) : bool :=
  match r with
  | ReadChunk _ => true
  | _ => false
  end.

Fixpoint readLoop (reads : list ReadResult) (buffer : jsstring) (lv : Live) : Live :=
  match reads with
  | [] => lv
  | ReadDone :: _ => lv
  | ReadRejected e :: _ => onError e lv
  | ReadChunk decoded :: reads' =>
      let lines := Js.split Js.newline (buffer ++ decoded) in
      readLoop reads' (List.last lines []) (fold_left onLine (removelast lines) lv)
  end.

Definition subscribe (sub : Subscription) (lv : Live) : Live :=
  match sub with
  | SubRejected e => onError e lv
  | SubNoBody => lv
  | SubBody reads => readLoop reads [] (setSseConnected true lv)
  end.

(** [onCleanup], which also aborts the subscription. *)
Definition cleanup (lv : Live) : Live := setSseConnected false lv.

End Subscribe.
End Extension.

(** The desktop client iterates the SDK's stream of parsed records. *)
Module Desktop.

(** How the iteration ended, if it has: the stream finished, the loop saw
    [cancelled] and left, or the iterator threw (with the value of
    [cancelled] at that time). *)
Inductive StreamEnd :=
| StreamPending
| StreamDone
| StreamCancelled
| StreamThrew (cancelled : bool) (reason : Thrown).

Inductive Subscription :=
| SubRejected (cancelled : bool) (reason : Thrown)
| SubStream (items : list Json) (ending : StreamEnd).

Section Subscribe.

Variable developerMode : bool.

(** The loop body, as far as the three signals go. *)
Definition onRecord (lv : Live) (raw : Json) : Live :=
  match normalizeEvent raw with
  | None => lv
  | Some event =>
      let lv1 := if bool_decide (event_type event = Js.lit "server.connected")
                 then setSseConnected true lv else lv in
      if developerMode then setEvents (take 150 (event :: events lv1)) lv1
      else lv1
  end.

(** [String(e)] *)
Definition toString (e : Thrown) : jsstring :=
  match e with
  | ErrorObject name message => name ++ Js.lit ": " ++ message
  | StringValue s => s
  | OtherValue _ asString => asString
  end.

(** The [catch] block. *)
Definition onError (cancelled : bool) (e : Thrown) (lv : Live) : Live :=
  if cancelled then lv
  else
    let message := error_message_or e (toString e) in
    if Js.includes (Js.lit "abort") (Js.toLowerCase message) then lv
    else setLiveError (Some message) lv.

Definition subscribe (sub : Subscription) (lv : Live) : Live :=
  match sub with
  | SubRejected cancelled e => onError cancelled e lv
  | SubStream items ending =>
      let lv' := fold_left onRecord items lv in
      match ending with
      | StreamThrew cancelled e => onError cancelled e lv'
      | _ => lv'
      end
  end.

End Subscribe.
End Desktop.


(** ** Part view ([PartView.tsx]) *)

(** The text added to a cut text: two line breaks, an ellipsis and a note. *)
Definition truncated_suffix : jsstring :=
  [10%N; 10%N; 8230%N] ++ Js.lit " (truncated)".

(** [clampText(text, max)]; the default of [max] is 800. *)
Definition clampText (text : jsstring) (max : nat) : jsstring :=
  if length text <=? max then text
  else take max text ++ truncated_suffix.

(** ** Plugins, folders and preferences of the desktop client *)

(** [!!value] *)
Definition truthy (value : Json) : bool :=
  match value with
  | JNull => false
  | JBool b => b
  | JNumber n => negb (n =? 0)%Z
  | JString s => negb (Js.falsy s)
  | JArray _ | JObject _ => true
  end.

Module Plugins.

(** [normalizePluginList(value)]; [None] is [undefined]. *)
Definition normalizePluginList (value : option Json) : list jsstring :=
  match value with
  | None => []
  | Some value =>
      if negb (truthy value) then []
      else
        match value with
        | JArray items =>
            filter (fun entry => 0 < length entry)
              (map (fun entry => match entry with
                                 | JString s => Js.trim s
                                 | _ => []
                                 end) items)
        | JString s =>
            let trimmed := Js.trim s in
            if Js.falsy trimmed then [] else [trimmed]
        | _ => []
        end
  end.

(** [s.indexOf(c)] for one code unit; [None] stands for [-1]. *)
Definition indexOf (c : N) (s : jsstring) : option nat :=
  findIndex (fun x => (x =? c)%N) s.

(** [s.indexOf(c, from)] *)
Definition indexOfFrom (c : N) (from : nat) (s : jsstring) : option nat :=
  (fun i => from + i) <$> indexOf c (drop from s).

Definition at_sign : N := 64%N.

Definition version_words : list jsstring :=
  map Js.lit ["latest"; "next"; "beta"; "alpha"; "canary"; "rc"; "stable"]%string.

Definition is_digit (c : N) : bool := ((48 <=? c) && (c <=? 57))%N.

(** [/^(latest|next|beta|alpha|canary|rc|stable|\d)/i.test(suffix)]: without
    the [u] flag, ignoring case only pairs the ASCII letters of the words with
    their capitals. *)
Definition looksLikeVersion (suffix : jsstring) : bool :=
  existsb (fun word => Js.startsWith word (Js.toLowerCase suffix)) version_words
  || match suffix with
     | c :: _ => is_digit c
     | [] => false
     end.

Definition stripPluginVersion (spec : jsstring) : jsstring :=
  let trimmed := Js.trim spec in
  if Js.falsy trimmed then []
  else if Js.startsWith [at_sign] trimmed then
    match indexOf Js.slash trimmed with
    | None => trimmed
    | Some slashIndex =>
        match indexOfFrom at_sign (slashIndex + 1) trimmed with
        | None => trimmed
        | Some atIndex =>
            let suffix := drop (atIndex + 1) trimmed in
            if looksLikeVersion suffix then take atIndex trimmed else trimmed
        end
    end
  else
    match indexOf at_sign trimmed with
    | None => trimmed
    | Some atIndex =>
        let suffix := drop (atIndex + 1) trimmed in
        if looksLikeVersion suffix then take atIndex trimmed else trimmed
    end.

Section Lower.

(** [String.prototype.toLowerCase] *)
Variable toLowerCase : jsstring -> jsstring.

(** The members of the set [pluginNamesLower]. *)
Definition pluginNamesLower (pluginList : list jsstring) : list jsstring :=
  flat_map (fun entry =>
              let raw := toLowerCase entry in
              let stripped := toLowerCase (stripPluginVersion entry) in
              if negb (Js.falsy stripped) && negb (bool_decide (stripped = raw))
              then [raw; stripped] else [raw]) pluginList.

Definition isPluginInstalled (pluginList : list jsstring) (pluginName : jsstring)
    (aliases : list jsstring) : bool :=
  existsb (fun entry => bool_decide (toLowerCase entry ∈ pluginNamesLower pluginList))
    (pluginName :: aliases).

End Lower.
End Plugins.

Module Folders.

(** [addAuthorizedDir()]: the new list of folders and the new content of the
    input field. *)
Definition addAuthorizedDir (newAuthorizedDir : jsstring) (current : list jsstring)
  : list jsstring * jsstring :=
  let next := Js.trim newAuthorizedDir in
  if Js.falsy next then (current, newAuthorizedDir)
  else ((if bool_decide (next ∈ current) then current else current ++ [next]), []).

(** [current.filter((_, i) => keep(i))], counting from [i]. *)
Fixpoint filter_index {A} (keep : nat -> bool) (i : nat) (l : list A) : list A :=
  match l with
  | [] => []
  | x :: l' =>
      if keep i then x :: filter_index keep (S i) l' else filter_index keep (S i) l'
  end.

Definition removeAuthorizedDir (index : nat) (current : list jsstring) : list jsstring :=
  filter_index (fun i => negb (i =? index)) 0 current.

End Folders.

Module ModePreference.

Inductive Mode := host | client.

Definition mode_name (m : Mode) : jsstring :=
  match m with
  | host => Js.lit "host"
  | client => Js.lit "client"
  end.

(** [window.localStorage]: what it holds, whether it can be reached at all
    (there is a window and the browser grants access) and which contents it
    has room for ([setItem] throws when the new content is not accepted). *)
Record LocalStorage := mkLocalStorage {
  items : gmap jsstring jsstring;
  accessible : bool;
  accepts : gmap jsstring jsstring -> bool
}.

Definition setItems (v : gmap jsstring jsstring) (ls : LocalStorage) : LocalStorage :=
  mkLocalStorage v (accessible ls) (accepts ls).

Definition modePref : jsstring := Js.lit "openwork.modePref".
Definition legacy_modePref : jsstring := Js.lit "openwork_mode_pref".

(** [setItem(key, value)]; [None] when it throws. *)
Definition setItem (key value : jsstring) (ls : LocalStorage) : option LocalStorage :=
  if accessible ls && accepts ls (<[key := value]> (items ls))
  then Some (setItems (<[key := value]> (items ls)) ls)
  else None.

Definition readModePreference (ls : LocalStorage) : option Mode * LocalStorage :=
  if negb (accessible ls) then (None, ls)
  else
    let pref := match items ls !! modePref with
                | Some v => Some v
                | None => items ls !! legacy_modePref
                end in
    let migrate (m : Mode) :=
      match setItem modePref (mode_name m) ls with
      | Some ls' => (Some m, ls')
      | None => (Some m, ls)
      end in
    match pref with
    | Some v =>
        if bool_decide (v = Js.lit "host") then migrate host
        else if bool_decide (v = Js.lit "client") then migrate client
        else (None, ls)
    | None => (None, ls)
    end.

Definition writeModePreference (nextMode : Mode) (ls : LocalStorage) : LocalStorage :=
  match setItem modePref (mode_name nextMode) ls with
  | None => ls
  | Some ls1 =>
      match setItem legacy_modePref (mode_name nextMode) ls1 with
      | None => ls1
      | Some ls2 => ls2
      end
  end.

Definition clearModePreference (ls : LocalStorage) : LocalStorage :=
  if accessible ls
  then setItems (delete legacy_modePref (delete modePref (items ls))) ls
  else ls.

End ModePreference.

(** The memo [newTaskDisabled], from [busy()] and [busyLabel()]. *)
Definition newTaskDisabled (busy : bool) (label : option jsstring) : bool :=
  if busy && bool_decide (label = Some (Js.lit "Running")) then false
  else if busy && (bool_decide (label = Some (Js.lit "Connecting"))
                   || bool_decide (label = Some (Js.lit "Starting engine"))
                   || bool_decide (label = Some (Js.lit "Disconnecting")))
  then true
  else busy.


(** ** The reconcilers: what an event does to the store *)

(** [event.properties] when it is an object. *)
Definition properties_object (event : OpencodeEvent) : option Json :=
  match event_properties event with
  | Some props => if is_object props then Some props else None
  | None => None
  end.

(** [typeof record.key === "string" ? record.key : null] *)
Definition get_string (key : jsstring) (record : Json) : option jsstring :=
  match get key record with
  | Some (JString s) => Some s
  | _ => None
  end.

(** [record.key] when it is an object. *)
Definition get_object (key : jsstring) (record : Json) : option Json :=
  match get key record with
  | Some value => if is_object value then Some value else None
  | None => None
  end.

Definition is_type (event : OpencodeEvent) (name : string) : bool :=
  bool_decide (event_type event = Js.lit name).

(** [id && other === id] for the selected session id. *)
Definition is_selected (st : Store) (sessionID : jsstring) : bool :=
  match selectedSessionId st with
  | Some id => negb (Js.falsy id) && bool_decide (sessionID = id)
  | None => false
  end.

Definition normalizeSessionStatus (status : option Json) : jsstring :=
  match status with
  | Some status =>
      if negb (is_object status) then Js.lit "idle"
      else
        match get (Js.lit "type") status with
        | Some (JString t) =>
            if bool_decide (t = Js.lit "busy") then Js.lit "running"
            else if bool_decide (t = Js.lit "retry") then Js.lit "retry"
            else if bool_decide (t = Js.lit "idle") then Js.lit "idle"
            else Js.lit "idle"
        | _ => Js.lit "idle"
        end
  | None => Js.lit "idle"
  end.

(** The desktop client's loop body after the event log, for the signals of
    [Store]. The casts of the loop are the views [asMessage], [asPart],
    [asSession] and [asTodos] of a parsed value as a record of the SDK. *)
Module DesktopReconciler.
Section Dispatch.

Variable asSession : Json -> Session.
Variable asMessage : Json -> Message.
Variable asPart : Json -> Part.
Variable asTodos : list Json -> list TodoItem.

Definition onSessionUpserted (event : OpencodeEvent) (st : Store) : Store :=
  match properties_object event with
  | Some record =>
      match get_object (Js.lit "info") record with
      | Some info => setSessions (upsertSession (sessions st) (asSession info)) st
      | None => st
      end
  | None => st
  end.

Definition onSessionDeleted (event : OpencodeEvent) (st : Store) : Store :=
  match properties_object event with
  | Some record =>
      match get (Js.lit "info") record with
      | Some info =>
          match get (Js.lit "id") info with
          | Some (JString id) =>
              if Js.falsy id then st
              else setSessions (filter (fun s => session_id s ≠ id) (sessions st)) st
          | _ => st
          end
      | None => st
      end
  | None => st
  end.

Definition onMessageUpdated (event : OpencodeEvent) (st : Store) : Store :=
  match properties_object event with
  | Some record =>
      match get_object (Js.lit "info") record with
      | Some raw =>
          let info := asMessage raw in
          let st1 := match modelFromUserMessage info with
                     | Some model => rememberModel (message_sessionID info) model st
                     | None => st
                     end in
          if is_selected st1 (message_sessionID info)
          then setMessages (upsertMessage (messages st1) info) st1
          else st1
      | None => st
      end
  | None => st
  end.

Definition onMessageRemoved (event : OpencodeEvent) (st : Store) : Store :=
  match properties_object event with
  | Some record =>
      match get_string (Js.lit "sessionID") record, get_string (Js.lit "messageID") record with
      | Some sessionID, Some messageID =>
          if is_selected st sessionID
          then setMessages
                 (filter (fun m => message_id (info m) ≠ messageID) (messages st)) st
          else st
      | _, _ => st
      end
  | None => st
  end.

Definition onPartUpdated (event : OpencodeEvent) (st : Store) : Store :=
  match properties_object event with
  | Some record =>
      match get_object (Js.lit "part") record with
      | Some raw =>
          let part := asPart raw in
          if is_selected st (part_sessionID part)
          then setMessages (upsertPart (messages st) part) st
          else st
      | None => st
      end
  | None => st
  end.

Definition onPartRemoved (event : OpencodeEvent) (st : Store) : Store :=
  match properties_object event with
  | Some record =>
      match get_string (Js.lit "sessionID") record,
            get_string (Js.lit "messageID") record,
            get_string (Js.lit "partID") record with
      | Some sessionID, Some messageID, Some partID =>
          if is_selected st sessionID && negb (Js.falsy messageID) && negb (Js.falsy partID)
          then setMessages (removePart (messages st) messageID partID) st
          else st
      | _, _, _ => st
      end
  | None => st
  end.

Definition onTodoUpdated (event : OpencodeEvent) (st : Store) : Store :=
  match properties_object event with
  | Some record =>
      match get_string (Js.lit "sessionID") record, get (Js.lit "todos") record with
      | Some sessionID, Some (JArray items) =>
          if is_selected st sessionID then setTodos (asTodos items) st else st
      | _, _ => st
      end
  | None => st
  end.

Definition dispatch (event : OpencodeEvent) (st : Store) : Store :=
  if is_type event "session.updated" || is_type event "session.created"
  then onSessionUpserted event st
  else if is_type event "session.deleted" then onSessionDeleted event st
  else if is_type event "message.updated" then onMessageUpdated event st
  else if is_type event "message.removed" then onMessageRemoved event st
  else if is_type event "message.part.updated" then onPartUpdated event st
  else if is_type event "message.part.removed" then onPartRemoved event st
  else if is_type event "todo.updated" then onTodoUpdated event st
  else st.

(** The events after which the loop fetches the permission list again. *)
Definition refreshesPermissions (event : OpencodeEvent) : bool :=
  is_type event "permission.asked" || is_type event "permission.replied".

(** What [session.status] and [session.idle] do to [sessionStatusById]. *)
Definition statusDispatch (event : OpencodeEvent) (current : gmap jsstring jsstring)
  : gmap jsstring jsstring :=
  if is_type event "session.status" then
    match properties_object event with
    | Some record =>
        match get_string (Js.lit "sessionID") record with
        | Some sessionID =>
            if Js.falsy sessionID then current
            else <[sessionID := normalizeSessionStatus (get (Js.lit "status") record)]> current
        | None => current
        end
    | None => current
    end
  else if is_type event "session.idle" then
    match properties_object event with
    | Some record =>
        match get_string (Js.lit "sessionID") record with
        | Some sessionID =>
            if Js.falsy sessionID then current
            else <[sessionID := Js.lit "idle"]> current
        | None => current
        end
    | None => current
    end
  else current.

(** The session a transcript event is about. *)
Definition transcript_session (event : OpencodeEvent) : option jsstring :=
  match properties_object event with
  | Some record =>
      if is_type event "message.updated"
      then (fun raw => message_sessionID (asMessage raw)) <$> get_object (Js.lit "info") record
      else if is_type event "message.removed"
      then get_string (Js.lit "sessionID") record
      else if is_type event "message.part.updated"
      then (fun raw => part_sessionID (asPart raw)) <$> get_object (Js.lit "part") record
      else if is_type event "message.part.removed"
      then get_string (Js.lit "sessionID") record
      else None
  | None => None
  end.

(** Events applied one after the other. *)
Definition dispatchAll (events : list OpencodeEvent) (st : Store) : Store :=
  fold_left (fun st event => dispatch event st) events st.

End Dispatch.
End DesktopReconciler.


(** The extension's handlers inside [subscribe], for the signals of [Store].
    Its casts are views as well; the handlers of the permission and todo
    events only fetch from the server again. *)
Module ExtensionReconciler.
Section Dispatch.

Variable asSession : Json -> Session.
Variable asMessage : Json -> Message.
Variable asPart : Json -> Part.

(** [props?.key] when it is truthy. *)
Definition get_truthy (key : jsstring) (props : option Json) : option Json :=
  match props with
  | Some props =>
      match get key props with
      | Some value => if truthy value then Some value else None
      | None => None
      end
  | None => None
  end.

(** An id that is no string equals the id of no stored message or part, and
    [removePart] then leaves the list as it is. *)
Definition dispatch (evt : OpencodeEvent) (st : Store) : Store :=
  let props := event_properties evt in
  if is_type evt "session.created" || is_type evt "session.updated" then
    match get_truthy (Js.lit "info") props with
    | Some info => setSessions (upsertSession (sessions st) (asSession info)) st
    | None => st
    end
  else if is_type evt "message.created" || is_type evt "message.updated" then
    match get_truthy (Js.lit "info") props with
    | Some raw =>
        let info := asMessage raw in
        if bool_decide (selectedSessionId st = Some (message_sessionID info))
        then setMessages (upsertMessage (messages st) info) st
        else st
    | None => st
    end
  else if is_type evt "message.part.created" || is_type evt "message.part.updated" then
    match get_truthy (Js.lit "info") props with
    | Some raw => setMessages (upsertPart (messages st) (asPart raw)) st
    | None => st
    end
  else if is_type evt "message.part.deleted" then
    match get_truthy (Js.lit "messageID") props, get_truthy (Js.lit "partID") props with
    | Some (JString messageID), Some (JString partID) =>
        setMessages (removePart (messages st) messageID partID) st
    | _, _ => st
    end
  else st.

End Dispatch.
End ExtensionReconciler.


(** ** Vocabulary of the statements *)

(** A run of [session.created] / [session.updated] events applied in order. *)
Definition upsertSessions (l : list Session) (payloads : list Session) : list Session :=
  fold_left upsertSession payloads l.

(** The payload of the last event for [id], if there is one. *)
Definition lastPayload (id : jsstring) (payloads : list Session) : option Session :=
  find (fun s => same_id (session_id s) id) (rev payloads).

Definition session_ids (l : list Session) : list jsstring := map session_id l.
Definition part_ids (l : list Part) : list jsstring := map part_id l.
Definition permission_ids (l : list PendingPermission) : list jsstring :=
  map (fun p => permission_id (request p)) l.


(** The tasks [selectSession] leaves waiting. *)
Definition is_selectSession_task (task : Task) : bool :=
  match task with
  | SelectSession_messages _ | SelectSession_todo _ | SelectSession_permissions _ => true
  | _ => false
  end.

(** The reading of the stale-fetch rule: a fetch of [selectSession] that
    settles while another session is selected leaves the store as it is. *)
Definition stale_results_discarded (safeStringify : Thrown -> jsstring) : Prop :=
  forall (w : World) (i : nat) (task : Task) (response : Response),
    inflight w !! i = Some task ->
    is_selectSession_task task = true ->
    selectedSessionId (store w) ≠ Some (task_session task) ->
    store (step safeStringify w (Settle i response)) = store w.

(** *** Sample data *)

Definition sample_client : Client :=
  {| client_baseUrl := Js.lit "http://127.0.0.1:4096" |}.

(** A connected client with nothing loaded. *)
Definition sample_store : Store :=
  {| client := Some sample_client;
     sessions := [];
     selectedSessionId := None;
     messages := [];
     todos := [];
     pendingPermissions := [];
     prompt := [];
     sessionModelOverrideById := ∅;
     sessionModelById := ∅;
     defaultModel := DEFAULT_MODEL;
     busy := false;
     error := None |}.

Definition sample_session (id title : string) : Session :=
  {| session_id := Js.lit id; session_title := Js.lit title;
     session_slug := Js.lit id; session_updatedAt := 0 |}.

Definition sample_message (id sessionID : string) (role : Role) (model : option ModelRef)
  : Message :=
  {| message_id := Js.lit id; message_sessionID := Js.lit sessionID;
     message_role := role; message_model := model |}.

Definition sample_part (id messageID content : string) : Part :=
  {| part_id := Js.lit id; part_sessionID := Js.lit "s1";
     part_messageID := Js.lit messageID; part_type := text;
     part_state := Js.lit content |}.

Definition sample_permission (id : string) : ApiPermissionRequest :=
  {| permission_id := Js.lit id; permission_sessionID := Js.lit "s1";
     permission_name := Js.lit "bash"; permission_patterns := [] |}.

Definition sample_stringify (e : Thrown) : jsstring := Js.lit "<unserializable>".

Definition history_s1 : list MessageWithParts :=
  [ {| info := sample_message "m1" "s1" user None; parts := [] |} ].
Definition history_s2 : list MessageWithParts :=
  [ {| info := sample_message "m2" "s2" user None; parts := [] |} ].

(** The user opens s1 and then s2; the history of s2 arrives first and the
    history of s1 is about to arrive. *)
Definition switched_world : World :=
  run sample_stringify {| store := sample_store; inflight := [] |}
    [ DoSelectSession (Js.lit "s1");
      DoSelectSession (Js.lit "s2");
      Settle 1 (MessagesResponse (Fulfilled (Data history_s2))) ].

Definition openai_gpt5 : ModelRef :=
  {| providerID := Js.lit "openai"; modelID := Js.lit "gpt-5" |}.
Definition anthropic_claude : ModelRef :=
  {| providerID := Js.lit "anthropic"; modelID := Js.lit "claude" |}.

Definition unhealthy : Health := {| healthy := false; version := Js.lit "1.2.3" |}.
Definition healthy_1_2_3 : Health := {| healthy := true; version := Js.lit "1.2.3" |}.

(** An endpoint polled every 250 ms that reports unhealthy for the first
    600 ms and healthy from then on. *)
Definition recovering_poll (k : nat) : Settled Health :=
  if k <? 3 then Fulfilled (Data unhealthy) else Fulfilled (Data healthy_1_2_3).
Definition every_250ms (k : nat) : Z := (250 * Z.of_nat k)%Z.

(** An endpoint that never reports healthy. *)
Definition unhealthy_poll (k : nat) : Settled Health := Fulfilled (Data unhealthy).

(** No connection yet. *)
Definition idle_live : Live :=
  {| sseConnected := false; events := []; live_error := None |}.

Definition reject_all (raw : jsstring) : option Json := None.

Definition session_updated_record : Json :=
  JObject [(Js.lit "type", JString (Js.lit "session.updated"))].
Definition server_connected_record : Json :=
  JObject [(Js.lit "payload",
            JObject [(Js.lit "type", JString (Js.lit "server.connected"))])].
Definition network_error : Thrown :=
  ErrorObject (Js.lit "TypeError") (Js.lit "network error").
Definition abort_error : Thrown :=
  ErrorObject (Js.lit "AbortError") (Js.lit "The operation was aborted.").

(** The test of the desktop loop for the record that raises the flag. *)
Definition is_server_connected (event : OpencodeEvent) : bool :=
  bool_decide (event_type event = Js.lit "server.connected").

(** s1 is selected with the override openai/gpt-5 and the last-known model
    anthropic/claude, and a prompt is typed in. *)
Definition scenario_store : Store :=
  setPrompt (Js.lit "hello")
    (setSessionModelById {[ Js.lit "s1" := anthropic_claude ]}
       (setSessionModelOverrideById {[ Js.lit "s1" := openai_gpt5 ]}
          (setSelectedSessionId (Some (Js.lit "s1")) sample_store))).

Definition held_permissions : list PendingPermission :=
  [ {| request := sample_permission "perm1"; receivedAt := 1000 |} ].
Definition listed_permissions : list ApiPermissionRequest :=
  [ sample_permission "perm1"; sample_permission "perm2" ].

Definition stored_sessions : list Session :=
  [ sample_session "s1" "first"; sample_session "s2" "other" ].
Definition session_payloads : list Session :=
  [ sample_session "s1" "second"; sample_session "s3" "new"; sample_session "s1" "third" ].

Definition stored_messages : list MessageWithParts :=
  [ {| info := sample_message "m1" "s1" user None;
       parts := [ sample_part "p1" "m1" "hi" ] |} ].

(** A parser that knows one payload. *)
Definition parse_ping (raw : jsstring) : option Json :=
  if bool_decide (raw = Js.lit "PING") then Some session_updated_record else None.

(** *** Vocabulary of the further properties *)

Definition message_ids (l : list MessageWithParts) : list jsstring :=
  map (fun m => message_id (info m)) l.

(** What [upsertPart] does to the part list of the message it found. *)
Definition upsertPartIn (ps : list Part) (nextPart : Part) : list Part :=
  match findIndex (fun p => same_id (part_id p) (part_id nextPart)) ps with
  | None => ps ++ [nextPart]
  | Some partIdx => <[partIdx := nextPart]> ps
  end.

(** Every message of the collection has pairwise distinct part ids. *)
Definition parts_distinct (l : list MessageWithParts) : Prop :=
  Forall (fun m => NoDup (part_ids (parts m))) l.

(** Views of a parsed record as the records of the SDK, and events built
    from their fields. *)
Definition field (key : string) (raw : Json) : jsstring :=
  default [] (get_string (Js.lit key) raw).

Definition view_session (raw : Json) : Session :=
  {| session_id := field "id" raw; session_title := field "title" raw;
     session_slug := field "slug" raw; session_updatedAt := 0 |}.

Definition view_model (raw : Json) : option ModelRef :=
  match get_object (Js.lit "model") raw with
  | Some m => Some {| providerID := field "providerID" m; modelID := field "modelID" m |}
  | None => None
  end.

Definition view_message (raw : Json) : Message :=
  {| message_id := field "id" raw; message_sessionID := field "sessionID" raw;
     message_role := if bool_decide (field "role" raw = Js.lit "user") then user else assistant;
     message_model := view_model raw |}.

Definition view_part (raw : Json) : Part :=
  {| part_id := field "id" raw; part_sessionID := field "sessionID" raw;
     part_messageID := field "messageID" raw; part_type := text;
     part_state := field "text" raw |}.

Definition view_todos (items : list Json) : list TodoItem :=
  map (fun raw => {| todo_id := field "id" raw; todo_content := field "content" raw;
                     todo_status := field "status" raw;
                     todo_priority := field "priority" raw |}) items.

Definition prop (key : string) (value : Json) : jsstring * Json := (Js.lit key, value).

Definition json_string (s : string) : Json := JString (Js.lit s).

Definition event_of (type : string) (fields : list (jsstring * Json)) : OpencodeEvent :=
  {| event_type := Js.lit type; event_properties := Some (JObject fields) |}.

Definition message_record (id sessionID role : string) : Json :=
  JObject [prop "id" (json_string id); prop "sessionID" (json_string sessionID);
           prop "role" (json_string role)].

Definition user_message_record (id sessionID provider model : string) : Json :=
  JObject [prop "id" (json_string id); prop "sessionID" (json_string sessionID);
           prop "role" (json_string "user");
           prop "model" (JObject [prop "providerID" (json_string provider);
                                  prop "modelID" (json_string model)])].

Definition part_record (id sessionID messageID content : string) : Json :=
  JObject [prop "id" (json_string id); prop "sessionID" (json_string sessionID);
           prop "messageID" (json_string messageID); prop "text" (json_string content)].

(** A store with session [s1] selected and the transcript [stored_messages]. *)
Definition transcript_store : Store :=
  setMessages stored_messages (setSessions stored_sessions scenario_store).

(** * Properties *)

(** ** JavaScript strings *)

Lemma dropWhile_no_leading (s : jsstring) :
  Js.starts_with_whitespace s = false -> Js.dropWhile Js.is_whitespace s = s.
Proof.
  destruct s as [|c s]; simpl; [done|].
  intros ->. done.
Qed.

Lemma trim_fixed (s : jsstring) :
  Js.starts_with_whitespace s = false ->
  Js.ends_with_whitespace s = false ->
  Js.trim s = s.
Proof.
  intros Hs He.
  unfold Js.trim, Js.trimStart, Js.trimEnd.
  rewrite (dropWhile_no_leading s Hs).
  unfold Js.ends_with_whitespace in He.
  rewrite (dropWhile_no_leading (rev s) He).
  apply rev_involutive.
Qed.

Lemma split_nonempty (sep : N) (s : jsstring) : Js.split sep s ≠ [].
Proof.
  destruct s as [|c s]; simpl; [done|].
  destruct (c =? sep)%N; [done|].
  destruct (Js.split sep s); done.
Qed.

Lemma split_prefix (sep : N) (p rest : jsstring) :
  sep ∉ p -> Js.split sep (p ++ sep :: rest) = p :: Js.split sep rest.
Proof.
  induction p as [|c p IH]; intros Hnot; simpl.
  - by rewrite N.eqb_refl.
  - apply not_elem_of_cons in Hnot as [Hc Hp].
    destruct (N.eqb_spec c sep) as [->|_]; [done|].
    by rewrite (IH Hp).
Qed.

Lemma join_split (sep : N) (s : jsstring) : Js.join [sep] (Js.split sep s) = s.
Proof.
  induction s as [|c s IH]; simpl; [done|].
  destruct (N.eqb_spec c sep) as [->|Hne].
  - pose proof (split_nonempty sep s) as Hs.
    destruct (Js.split sep s) as [|piece pieces] eqn:E; [done|].
    simpl in *. by rewrite IH.
  - destruct (Js.split sep s) as [|piece pieces] eqn:E.
    + by destruct (split_nonempty sep s).
    + destruct pieces as [|piece' pieces]; simpl in *; by rewrite <- IH.
Qed.

Lemma format_no_edge_whitespace (m : ModelRef) :
  providerID m ≠ [] ->
  Js.starts_with_whitespace (providerID m) = false ->
  Js.ends_with_whitespace (modelID m) = false ->
  Js.starts_with_whitespace (formatModelRef m) = false
  /\ Js.ends_with_whitespace (formatModelRef m) = false.
Proof.
  intros Hne Hs He. unfold formatModelRef. split.
  - destruct (providerID m) as [|c p]; [done|]. exact Hs.
  - unfold Js.ends_with_whitespace in *.
    rewrite !rev_app_distr. simpl.
    destruct (rev (modelID m)) as [|c r]; [done|]. exact He.
Qed.

Example trim_both_ends : Js.trim (Js.lit "  a b  ") = Js.lit "a b".
Proof. reflexivity. Qed.

Example trim_no_break_space : Js.trim [160%N; 97%N; 10%N] = [97%N].
Proof. reflexivity. Qed.

Example split_slashes :
  Js.split Js.slash (Js.lit "a/b//c") = [Js.lit "a"; Js.lit "b"; []; Js.lit "c"].
Proof. reflexivity. Qed.

Example split_empty : Js.split Js.slash [] = [[]].
Proof. reflexivity. Qed.

(** ** Model references *)

Example parse_default :
  parseModelRef (Some (Js.lit "opencode/gpt-5-nano")) = Some DEFAULT_MODEL.
Proof. reflexivity. Qed.

Example parse_keeps_later_slashes :
  parseModelRef (Some (Js.lit " openrouter/meta/llama "))
  = Some {| providerID := Js.lit "openrouter"; modelID := Js.lit "meta/llama" |}.
Proof. reflexivity. Qed.

Example parse_rejects :
  parseModelRef None = None
  /\ parseModelRef (Some (Js.lit "  ")) = None
  /\ parseModelRef (Some (Js.lit "gpt-5")) = None
  /\ parseModelRef (Some (Js.lit "/gpt-5")) = None.
Proof. repeat split. Qed.

(** C10: [parseModelRef] undoes [formatModelRef] on every model reference
    whose provider id is non-empty, has no slash and no whitespace at either
    end, and whose model id has no whitespace at either end. *)
Theorem parseModelRef_formatModelRef (m : ModelRef) :
  providerID m ≠ [] ->
  Js.slash ∉ providerID m ->
  Js.starts_with_whitespace (providerID m) = false ->
  Js.ends_with_whitespace (providerID m) = false ->
  Js.starts_with_whitespace (modelID m) = false ->
  Js.ends_with_whitespace (modelID m) = false ->
  parseModelRef (Some (formatModelRef m)) = Some m.
Proof.
  intros Hne Hslash Hps _ _ Hme.
  destruct (format_no_edge_whitespace m Hne Hps Hme) as [Hs He].
  unfold parseModelRef.
  rewrite (trim_fixed _ Hs He).
  assert (Js.falsy (formatModelRef m) = false) as ->.
  { unfold formatModelRef. by destruct (providerID m). }
  unfold formatModelRef. simpl.
  rewrite (split_prefix Js.slash _ _ Hslash).
  pose proof (split_nonempty Js.slash (modelID m)) as Hrest.
  assert (Js.falsy (providerID m) = false) as -> by by destruct (providerID m).
  destruct (Js.split Js.slash (modelID m)) as [|piece pieces] eqn:E; [done|].
  rewrite <- E, (join_split Js.slash (modelID m)), E.
  by destruct m.
Qed.

(** The built-in default model survives being written and read back. *)
Lemma parseModelRef_formatModelRef_witness :
  parseModelRef (Some (formatModelRef DEFAULT_MODEL)) = Some DEFAULT_MODEL.
Proof.
  apply (parseModelRef_formatModelRef DEFAULT_MODEL).
  - vm_compute. discriminate.
  - vm_compute. intros H. repeat (apply elem_of_cons in H as [H|H]; [discriminate|]).
    by apply elem_of_nil in H.
  - reflexivity.
  - reflexivity.
  - reflexivity.
  - reflexivity.
Defined.

(** ** State-store primitives *)

Lemma same_id_true (a b : jsstring) : same_id a b = true <-> a = b.
Proof. unfold same_id. apply bool_decide_eq_true. Qed.

Lemma same_id_false (a b : jsstring) : same_id a b = false <-> a ≠ b.
Proof. unfold same_id. apply bool_decide_eq_false. Qed.

Lemma findIndex_None {A} (p : A -> bool) (l : list A) :
  findIndex p l = None <-> Forall (fun x => p x = false) l.
Proof.
  induction l as [|x l IH]; simpl.
  - split; [constructor|done].
  - destruct (p x) eqn:Hx.
    + split; [done|]. intros H. inversion H; congruence.
    + rewrite fmap_None, IH. split.
      * by constructor.
      * intros H. by inversion H.
Qed.

Lemma findIndex_Some {A} (p : A -> bool) (l : list A) (i : nat) :
  findIndex p l = Some i ->
  exists x, l !! i = Some x /\ p x = true
            /\ Forall (fun y => p y = false) (take i l).
Proof.
  revert i. induction l as [|x l IH]; intros i; simpl; [done|].
  destruct (p x) eqn:Hx.
  - intros [= <-]. exists x. simpl. by repeat split.
  - intros H. apply fmap_Some in H as (j & Hj & ->).
    destruct (IH j Hj) as (y & Hy & Hpy & Hbefore).
    exists y. simpl. repeat split; [done..|]. by constructor.
Qed.

Lemma find_findIndex {A} (p : A -> bool) (l : list A) :
  find p l = findIndex p l ≫= (fun i => l !! i).
Proof.
  induction l as [|x l IH]; simpl; [done|].
  destruct (p x); [done|].
  rewrite IH. by destruct (findIndex p l).
Qed.

Lemma upsertSession_nil (next : Session) : upsertSession [] next = [next].
Proof. done. Qed.

Lemma upsertSession_cons (x : Session) (l : list Session) (next : Session) :
  upsertSession (x :: l) next =
  if same_id (session_id x) (session_id next) then next :: l
  else x :: upsertSession l next.
Proof.
  unfold upsertSession. simpl.
  destruct (same_id (session_id x) (session_id next)); [done|].
  by destruct (findIndex _ l).
Qed.

Lemma findSession_upsert (l : list Session) (next : Session) (id : jsstring) :
  findSession id (upsertSession l next) =
  if same_id (session_id next) id then Some next else findSession id l.
Proof.
  unfold findSession.
  induction l as [|x l IH].
  - rewrite upsertSession_nil. simpl. by destruct (same_id (session_id next) id).
  - rewrite upsertSession_cons.
    destruct (same_id (session_id x) (session_id next)) eqn:Hx; simpl.
    + apply same_id_true in Hx.
      destruct (same_id (session_id next) id) eqn:Hn; [done|].
      rewrite Hx, Hn. done.
    + destruct (same_id (session_id x) id) eqn:Hxi; [|exact IH].
      apply same_id_true in Hxi. apply same_id_false in Hx.
      destruct (same_id (session_id next) id) eqn:Hn; [|done].
      apply same_id_true in Hn. congruence.
Qed.

Lemma upsertSession_lookup_other (l : list Session) (next : Session) (i : nat) (s : Session) :
  l !! i = Some s -> session_id s ≠ session_id next ->
  upsertSession l next !! i = Some s.
Proof.
  revert i. induction l as [|x l IH]; intros i Hi Hne; [done|].
  rewrite upsertSession_cons.
  destruct (same_id (session_id x) (session_id next)) eqn:Hx.
  - destruct i as [|i]; simpl in *; [|done].
    apply same_id_true in Hx. congruence.
  - destruct i as [|i]; simpl in *; [done|]. by apply IH.
Qed.

Lemma upsertSession_ids (l : list Session) (next : Session) :
  session_ids (upsertSession l next) =
  if bool_decide (session_id next ∈ session_ids l) then session_ids l
  else session_ids l ++ [session_id next].
Proof.
  unfold session_ids.
  induction l as [|x l IH].
  - rewrite upsertSession_nil. cbn [map app].
    rewrite bool_decide_eq_false_2; [done|]. apply not_elem_of_nil.
  - rewrite upsertSession_cons.
    destruct (same_id (session_id x) (session_id next)) eqn:Hx; cbn [map app].
    + apply same_id_true in Hx. rewrite bool_decide_eq_true_2; [by rewrite Hx|].
      rewrite Hx. apply elem_of_cons. by left.
    + apply same_id_false in Hx. rewrite IH.
      destruct (bool_decide (session_id next ∈ map session_id l)) eqn:Hin.
      * apply bool_decide_eq_true in Hin.
        rewrite bool_decide_eq_true_2; [done|]. apply elem_of_cons. by right.
      * apply bool_decide_eq_false in Hin.
        rewrite bool_decide_eq_false_2; [done|].
        intros [?|?]%elem_of_cons; congruence.
Qed.

Lemma upsertSessions_app (l payloads : list Session) (next : Session) :
  upsertSessions l (payloads ++ [next]) = upsertSession (upsertSessions l payloads) next.
Proof. unfold upsertSessions. by rewrite fold_left_app. Qed.

Lemma lastPayload_app (id : jsstring) (payloads : list Session) (next : Session) :
  lastPayload id (payloads ++ [next]) =
  if same_id (session_id next) id then Some next else lastPayload id payloads.
Proof. unfold lastPayload. by rewrite rev_app_distr. Qed.

(** C2: after any run of session upserts the entry found for an id is the
    payload of the last upsert for that id (or the former entry when the run
    has none), entries whose id the run does not name keep their place and
    value, the former ids stay in place as a prefix of the list, ids added are
    new, pairwise distinct and named by the run, and a payload with an absent
    id goes to the end. *)
Theorem upsertSession_sequence (l payloads : list Session) :
  (forall id,
      findSession id (upsertSessions l payloads) =
      match lastPayload id payloads with
      | Some payload => Some payload
      | None => findSession id l
      end)
  /\ (forall i s,
         l !! i = Some s -> session_id s ∉ session_ids payloads ->
         upsertSessions l payloads !! i = Some s)
  /\ (exists added,
         session_ids (upsertSessions l payloads) = session_ids l ++ added
         /\ NoDup added
         /\ forall id, id ∈ added -> (id ∉ session_ids l) /\ id ∈ session_ids payloads)
  /\ (forall next,
         findSession (session_id next) l = None -> upsertSession l next = l ++ [next]).
Proof.
  split; [|split; [|split]].
  - induction payloads as [|next payloads IH] using rev_ind; intros id; [done|].
    rewrite upsertSessions_app, lastPayload_app, findSession_upsert.
    destruct (same_id (session_id next) id); [done|]. apply IH.
  - induction payloads as [|next payloads IH] using rev_ind; intros i s Hi Hnot; [done|].
    rewrite upsertSessions_app. unfold session_ids in Hnot.
    rewrite map_app in Hnot. apply not_elem_of_app in Hnot as [Hnot Hnext].
    apply upsertSession_lookup_other; [by apply IH|].
    simpl in Hnext. intros Heq. apply Hnext. rewrite Heq. apply list_elem_of_singleton. done.
  - induction payloads as [|next payloads IH] using rev_ind.
    + exists []. rewrite app_nil_r. split; [done|]. split; [apply NoDup_nil_2|].
      by intros id ?%elem_of_nil.
    + destruct IH as (added & Hids & Hnodup & Hadded).
      rewrite upsertSessions_app, upsertSession_ids, Hids.
      assert (forall id, id ∈ session_ids payloads ->
                         id ∈ session_ids (payloads ++ [next])) as Hmono.
      { intros id Hid. unfold session_ids. rewrite map_app. apply elem_of_app. by left. }
      case_bool_decide as Hin.
      * exists added. split; [done|]. split; [done|].
        intros id Hid. destruct (Hadded id Hid). auto.
      * exists (added ++ [session_id next]). rewrite app_assoc.
        apply not_elem_of_app in Hin as [Hinl Hina].
        split; [done|]. split.
        -- apply NoDup_app. split; [done|]. split; [|apply NoDup_singleton].
           intros id Hid ->%list_elem_of_singleton. done.
        -- intros id [Hid| ->%list_elem_of_singleton]%elem_of_app.
           ++ destruct (Hadded id Hid). auto.
           ++ split; [done|]. unfold session_ids. rewrite map_app.
              apply elem_of_app. right. by apply list_elem_of_singleton.
  - intros next Hnone. unfold upsertSession.
    unfold findSession in Hnone. rewrite find_findIndex in Hnone.
    destruct (findIndex _ l) as [idx|] eqn:Hidx; [|done].
    apply findIndex_Some in Hidx as (x & Hx & _). simpl in Hnone. congruence.
Qed.

Lemma findMessage_None (id : jsstring) (l : list MessageWithParts) :
  findMessage id l = None ->
  findIndex (fun m => same_id (message_id (info m)) id) l = None.
Proof.
  unfold findMessage. rewrite find_findIndex.
  destruct (findIndex _ l) as [idx|] eqn:Hidx; [|done].
  apply findIndex_Some in Hidx as (x & Hx & _). simpl. congruence.
Qed.

Lemma findMessage_Some (id : jsstring) (l : list MessageWithParts) (msg : MessageWithParts) :
  findMessage id l = Some msg ->
  exists idx,
    findIndex (fun m => same_id (message_id (info m)) id) l = Some idx
    /\ l !! idx = Some msg /\ message_id (info msg) = id.
Proof.
  unfold findMessage. rewrite find_findIndex.
  destruct (findIndex _ l) as [idx|] eqn:Hidx; [|done].
  simpl. intros Hmsg. exists idx. split; [done|]. split; [done|].
  apply findIndex_Some in Hidx as (x & Hx & Hp & _).
  apply same_id_true in Hp. congruence.
Qed.

Lemma findMessage_app_fresh (id : jsstring) (l : list MessageWithParts)
    (msg : MessageWithParts) :
  findMessage id l = None -> message_id (info msg) = id ->
  findMessage id (l ++ [msg]) = Some msg.
Proof.
  unfold findMessage. intros Hnone Hid.
  induction l as [|x l IH]; simpl in *.
  - by rewrite (proj2 (same_id_true _ _) Hid).
  - destruct (same_id (message_id (info x)) id); [done|]. by apply IH.
Qed.

Lemma findIndex_app_fresh {A} (p : A -> bool) (l : list A) (x : A) :
  findIndex p l = None -> p x = true -> findIndex p (l ++ [x]) = Some (length l).
Proof.
  induction l as [|y l IH]; simpl; intros Hnone Hx.
  - by rewrite Hx.
  - destruct (p y); [done|].
    apply fmap_None in Hnone. by rewrite (IH Hnone Hx).
Qed.

Lemma upsertMessage_fresh (l : list MessageWithParts) (nextInfo : Message) :
  findMessage (message_id nextInfo) l = None ->
  upsertMessage l nextInfo = l ++ [{| info := nextInfo; parts := [] |}].
Proof.
  intros Hnone. unfold upsertMessage. by rewrite (findMessage_None _ _ Hnone).
Qed.

(** C8: [upsertMessage] on a present id replaces the info of that entry, keeps
    its parts, and keeps every other entry and the length; on an absent id it
    appends an entry with no parts. *)
Theorem upsertMessage_frame (l : list MessageWithParts) (nextInfo : Message) :
  (forall old,
      findMessage (message_id nextInfo) l = Some old ->
      exists idx,
        l !! idx = Some old
        /\ upsertMessage l nextInfo !! idx = Some {| info := nextInfo; parts := parts old |}
        /\ (forall j, j ≠ idx -> upsertMessage l nextInfo !! j = l !! j)
        /\ length (upsertMessage l nextInfo) = length l)
  /\ (findMessage (message_id nextInfo) l = None ->
      upsertMessage l nextInfo = l ++ [{| info := nextInfo; parts := [] |}]).
Proof.
  split.
  - intros old Hold.
    apply findMessage_Some in Hold as (idx & Hidx & Hlook & _).
    exists idx. unfold upsertMessage. rewrite Hidx, Hlook.
    split; [done|]. split; [|split].
    + apply list_lookup_insert_eq. by eapply lookup_lt_Some.
    + intros j Hj. by apply list_lookup_insert_ne.
    + apply length_insert.
  - apply upsertMessage_fresh.
Qed.

(** C3: [upsertPart] leaves the collection as it is when no message has the
    part's [messageID]; after [upsertMessage] for a fresh id, [upsertPart] for a
    part of that message gives a collection whose entry for the id holds
    exactly that part; for a present message the part replaces the one with its
    id in place, or goes to the end of the parts when its id is new. *)
Theorem upsertPart_spec (l : list MessageWithParts) (p : Part) :
  (findMessage (part_messageID p) l = None -> upsertPart l p = l)
  /\ (forall i,
         findMessage (message_id i) l = None -> part_messageID p = message_id i ->
         upsertPart (upsertMessage l i) p = l ++ [{| info := i; parts := [p] |}]
         /\ findMessage (message_id i) (upsertPart (upsertMessage l i) p)
            = Some {| info := i; parts := [p] |})
  /\ (forall msg,
         findMessage (part_messageID p) l = Some msg ->
         exists idx parts',
           l !! idx = Some msg
           /\ upsertPart l p = <[idx := {| info := info msg; parts := parts' |}]> l
           /\ (((part_id p ∉ part_ids (parts msg)) /\ parts' = parts msg ++ [p])
               \/ (exists k old,
                      parts msg !! k = Some old /\ part_id old = part_id p
                      /\ parts' = <[k := p]> (parts msg)))).
Proof.
  split; [|split].
  - intros Hnone. unfold upsertPart. by rewrite (findMessage_None _ _ Hnone).
  - intros i Hnone Hmsg.
    assert (upsertPart (upsertMessage l i) p = l ++ [{| info := i; parts := [p] |}]) as Heq.
    { rewrite (upsertMessage_fresh l i Hnone).
      unfold upsertPart. rewrite Hmsg.
      rewrite (findIndex_app_fresh _ l); [|by apply findMessage_None|by apply same_id_true].
      rewrite list_lookup_middle by done. simpl.
      rewrite (insert_app_r_alt l _ (length l)) by done.
      by rewrite Nat.sub_diag. }
    split; [done|]. rewrite Heq. by apply findMessage_app_fresh.
  - intros msg Hfound.
    apply findMessage_Some in Hfound as (idx & Hidx & Hlook & _).
    unfold upsertPart. rewrite Hidx, Hlook.
    destruct (findIndex (fun q => same_id (part_id q) (part_id p)) (parts msg))
      as [k|] eqn:Hk.
    + exists idx, (<[k := p]> (parts msg)). split; [done|]. split; [done|]. right.
      apply findIndex_Some in Hk as (old & Hold & Hp & _).
      exists k, old. apply same_id_true in Hp. done.
    + exists idx, (parts msg ++ [p]). split; [done|]. split; [done|]. left.
      split; [|done]. apply findIndex_None in Hk.
      unfold part_ids. intros (q & Hq & Hin)%list_elem_of_fmap.
      rewrite Forall_forall in Hk. specialize (Hk q Hin).
      apply same_id_false in Hk. congruence.
Qed.

Lemma removePart_cons (x : MessageWithParts) (l : list MessageWithParts)
    (messageID partID : jsstring) :
  removePart (x :: l) messageID partID =
  if same_id (message_id (info x)) messageID
  then {| info := info x; parts := filter (fun p => part_id p ≠ partID) (parts x) |} :: l
  else x :: removePart l messageID partID.
Proof.
  unfold removePart. simpl.
  destruct (same_id (message_id (info x)) messageID); [done|].
  destruct (findIndex _ l) as [idx|]; simpl; [|done].
  by destruct (l !! idx).
Qed.

Lemma filter_idempotent {A} (P : A -> Prop) `{forall x, Decision (P x)} (l : list A) :
  filter P (filter P l) = filter P l.
Proof.
  induction l as [|x l IH]; [done|].
  rewrite filter_cons. destruct (decide (P x)) as [Hx|Hx]; [|done].
  rewrite filter_cons. destruct (decide (P x)); [|done]. by rewrite IH.
Qed.

Lemma filter_absent (partID : jsstring) (l : list Part) :
  partID ∉ part_ids l -> filter (fun p => part_id p ≠ partID) l = l.
Proof.
  unfold part_ids. induction l as [|x l IH]; [done|].
  simpl. intros [Hx Hl]%not_elem_of_cons.
  rewrite filter_cons. destruct (decide (part_id x ≠ partID)) as [_|Hn].
  - by rewrite (IH Hl).
  - destruct Hn. congruence.
Qed.

(** C7: [removePart] applied twice equals [removePart] applied once, and it
    returns the collection as it is when no message has [messageID] or when the
    message found for [messageID] has no part with [partID]. *)
Theorem removePart_idempotent (l : list MessageWithParts) (messageID partID : jsstring) :
  removePart (removePart l messageID partID) messageID partID
  = removePart l messageID partID
  /\ (findMessage messageID l = None -> removePart l messageID partID = l)
  /\ (forall msg,
         findMessage messageID l = Some msg -> partID ∉ part_ids (parts msg) ->
         removePart l messageID partID = l).
Proof.
  split; [|split].
  - induction l as [|x l IH]; [done|].
    rewrite removePart_cons.
    destruct (same_id (message_id (info x)) messageID) eqn:Hx.
    + rewrite removePart_cons. simpl. rewrite Hx. by rewrite filter_idempotent.
    + rewrite removePart_cons, Hx. by rewrite IH.
  - intros Hnone. unfold removePart. by rewrite (findMessage_None _ _ Hnone).
  - intros msg Hfound Habsent.
    apply findMessage_Some in Hfound as (idx & Hidx & Hlook & _).
    unfold removePart. rewrite Hidx, Hlook, (filter_absent _ _ Habsent).
    apply list_insert_id. by destruct msg.
Qed.

(** ** Permission reconciliation *)

Lemma byId_snoc (current : list PendingPermission) (p : PendingPermission) :
  byId (current ++ [p]) = <[permission_id (request p) := p]> (byId current).
Proof. unfold byId. by rewrite fold_left_app. Qed.

Lemma byId_None (current : list PendingPermission) (id : jsstring) :
  byId current !! id = None <-> id ∉ permission_ids current.
Proof.
  unfold permission_ids.
  induction current as [|p current IH] using rev_ind.
  - split; [intros _; apply not_elem_of_nil|done].
  - rewrite byId_snoc, map_app, not_elem_of_app, <- IH. simpl.
    rewrite lookup_insert_None, list_elem_of_singleton.
    split; intros [? ?]; split; congruence.
Qed.

Lemma byId_Some (current : list PendingPermission) (id : jsstring) (old : PendingPermission) :
  byId current !! id = Some old ->
  old ∈ current /\ permission_id (request old) = id.
Proof.
  induction current as [|p current IH] using rev_ind.
  - done.
  - rewrite byId_snoc. intros H.
    apply lookup_insert_Some in H as [[<- <-]|[_ H]].
    + split; [|done]. apply elem_of_app. right. by apply list_elem_of_singleton.
    + destruct (IH H) as [Hin Hid]. split; [|done]. apply elem_of_app. by left.
Qed.

Lemma reconcile_receivedAt (current : list PendingPermission)
    (listed : list ApiPermissionRequest) (now : Z) (q : PendingPermission) :
  q ∈ reconcilePermissions current listed now ->
  receivedAt q = match byId current !! permission_id (request q) with
                 | Some old => receivedAt old
                 | None => now
                 end.
Proof.
  unfold reconcilePermissions.
  intros (p & -> & _)%list_elem_of_fmap. done.
Qed.

Lemma same_id_same_entry (l : list PendingPermission) (a b : PendingPermission) :
  NoDup (permission_ids l) -> a ∈ l -> b ∈ l ->
  permission_id (request a) = permission_id (request b) -> a = b.
Proof.
  unfold permission_ids.
  induction l as [|x l IH]; simpl; intros Hnd Ha Hb Heq.
  - by apply elem_of_nil in Ha.
  - apply NoDup_cons in Hnd as [Hx Hnd].
    apply elem_of_cons in Ha as [->|Ha]; apply elem_of_cons in Hb as [->|Hb].
    + done.
    + destruct Hx. rewrite Heq. apply list_elem_of_fmap. by exists b.
    + destruct Hx. rewrite <- Heq. apply list_elem_of_fmap. by exists a.
    + by apply IH.
Qed.

(** C5: the reconciled list is the server's list entry by entry; an entry
    whose id the previous list holds takes its [receivedAt] from a previous
    entry with that id (from the previous entry, when the previous ids are
    pairwise distinct), every other entry gets [now]; and an id listed in two
    refreshes in a row keeps the [receivedAt] the first refresh gave it. *)
Theorem reconcilePermissions_spec (current : list PendingPermission)
    (listed : list ApiPermissionRequest) (now : Z) :
  map request (reconcilePermissions current listed now) = listed
  /\ (forall q,
         q ∈ reconcilePermissions current listed now ->
         (exists old,
             old ∈ current
             /\ permission_id (request old) = permission_id (request q)
             /\ receivedAt q = receivedAt old)
         \/ ((permission_id (request q) ∉ permission_ids current) /\ receivedAt q = now))
  /\ (NoDup (permission_ids current) ->
      forall q old,
        q ∈ reconcilePermissions current listed now -> old ∈ current ->
        permission_id (request old) = permission_id (request q) ->
        receivedAt q = receivedAt old)
  /\ (forall listed' now' q q',
         q ∈ reconcilePermissions current listed now ->
         q' ∈ reconcilePermissions (reconcilePermissions current listed now) listed' now' ->
         permission_id (request q') = permission_id (request q) ->
         receivedAt q' = receivedAt q).
Proof.
  assert (forall cur lst t q,
             q ∈ reconcilePermissions cur lst t ->
             (exists old,
                 old ∈ cur
                 /\ permission_id (request old) = permission_id (request q)
                 /\ receivedAt q = receivedAt old)
             \/ ((permission_id (request q) ∉ permission_ids cur) /\ receivedAt q = t))
    as Hentry.
  { intros cur lst t q Hq. rewrite (reconcile_receivedAt _ _ _ _ Hq).
    destruct (byId cur !! permission_id (request q)) as [old|] eqn:Hold.
    - left. exists old. apply byId_Some in Hold as [Hin Hid]. done.
    - right. by apply byId_None in Hold. }
  split; [|split; [|split]].
  - unfold reconcilePermissions. rewrite map_map. simpl. apply map_id.
  - apply Hentry.
  - intros Hnd q old Hq Hold Hid.
    destruct (Hentry _ _ _ _ Hq) as [(old' & Hin & Hid' & ->)|[Hnot _]].
    + f_equal. apply (same_id_same_entry current); [done..|congruence].
    + destruct Hnot. rewrite <- Hid. unfold permission_ids.
      apply list_elem_of_fmap. by exists old.
  - intros listed' now' q q' Hq Hq' Hid.
    destruct (Hentry _ _ _ _ Hq') as [(old & Hin & Hid' & ->)|[Hnot _]].
    + rewrite (reconcile_receivedAt _ _ _ _ Hq), (reconcile_receivedAt _ _ _ _ Hin).
      by rewrite Hid', Hid.
    + destruct Hnot. rewrite Hid. unfold permission_ids.
      apply list_elem_of_fmap. by exists q.
Qed.

(** ** Model resolver *)

Lemma scan_Some (l : list MessageWithParts) (i : nat) (model : ModelRef) :
  lastUserModelFromMessages_from i l = Some model <->
  exists j msg,
    j < i /\ l !! j = Some msg /\ modelFromUserMessage (info msg) = Some model
    /\ forall k msg', j < k -> k < i -> l !! k = Some msg' ->
                      modelFromUserMessage (info msg') = None.
Proof.
  induction i as [|i IH]; simpl.
  - split; [done|]. intros (j & _ & Hj & _). lia.
  - destruct (l !! i) as [m|] eqn:Hm.
    + destruct (modelFromUserMessage (info m)) as [found|] eqn:Hfound.
      * split.
        -- intros [= <-]. exists i, m. repeat split; [lia|done..|].
           intros k msg' ? ?. lia.
        -- intros (j & msg & Hj & Hmsg & Hmodel & Hlater).
           destruct (decide (j = i)) as [->|Hne]; [congruence|].
           assert (modelFromUserMessage (info m) = None) by (apply (Hlater i); [lia..|done]).
           congruence.
      * rewrite IH. split.
        -- intros (j & msg & Hj & Hmsg & Hmodel & Hlater).
           exists j, msg. repeat split; [lia|done..|].
           intros k msg' Hjk Hk Hmsg'.
           destruct (decide (k = i)) as [->|Hne]; [congruence|].
           apply (Hlater k); [lia..|done].
        -- intros (j & msg & Hj & Hmsg & Hmodel & Hlater).
           destruct (decide (j = i)) as [->|Hne]; [congruence|].
           exists j, msg. repeat split; [lia|done..|].
           intros k msg' ? ? ?. apply (Hlater k); [lia..|done].
    + rewrite IH. split.
      * intros (j & msg & Hj & Hmsg & Hmodel & Hlater).
        exists j, msg. repeat split; [lia|done..|].
        intros k msg' Hjk Hk Hmsg'.
        destruct (decide (k = i)) as [->|Hne]; [congruence|].
        apply (Hlater k); [lia..|done].
      * intros (j & msg & Hj & Hmsg & Hmodel & Hlater).
        destruct (decide (j = i)) as [->|Hne]; [congruence|].
        exists j, msg. repeat split; [lia|done..|].
        intros k msg' ? ? ?. apply (Hlater k); [lia..|done].
Qed.

Lemma scan_None (l : list MessageWithParts) (i : nat) :
  lastUserModelFromMessages_from i l = None <->
  forall k msg, k < i -> l !! k = Some msg -> modelFromUserMessage (info msg) = None.
Proof.
  induction i as [|i IH]; simpl.
  - split; [|done]. intros _ k msg ?. lia.
  - destruct (l !! i) as [m|] eqn:Hm.
    + destruct (modelFromUserMessage (info m)) as [found|] eqn:Hfound.
      * split; [done|]. intros H. specialize (H i m). rewrite Hfound in H.
        apply H; [lia|done].
      * rewrite IH. split.
        -- intros H k msg Hk Hmsg.
           destruct (decide (k = i)) as [->|Hne]; [congruence|].
           apply (H k); [lia|done].
        -- intros H k msg Hk. apply H. lia.
    + rewrite IH. split.
      * intros H k msg Hk Hmsg.
        destruct (decide (k = i)) as [->|Hne]; [congruence|].
        apply (H k); [lia|done].
      * intros H k msg Hk. apply H. lia.
Qed.

Lemma rememberModel_known (sessionID : jsstring) (model : ModelRef) (st : Store) :
  sessionModelById (rememberModel sessionID model st) !! sessionID = Some model.
Proof. unfold rememberModel. simpl. apply lookup_insert_eq. Qed.

Lemma rememberModel_override (sessionID : jsstring) (model : ModelRef) (st : Store) :
  sessionModelOverrideById (rememberModel sessionID model st) !! sessionID = None.
Proof.
  unfold rememberModel, clearOverride. simpl.
  destruct (sessionModelOverrideById st !! sessionID) eqn:H; [|done].
  apply lookup_delete_eq.
Qed.

Lemma rememberModel_selected (sessionID : jsstring) (model : ModelRef) (st : Store) :
  selectedSessionId (rememberModel sessionID model st) = selectedSessionId st.
Proof. done. Qed.

Lemma falsy_false (s : jsstring) : s ≠ [] -> Js.falsy s = false.
Proof. by destruct s. Qed.

(** C4: for the selected session the model is the override if there is one,
    else the last-known model, else the model of the last user message that
    carries one, else the default; and once the prompt call of [sendPrompt]
    succeeds, the model resolved for the send is the last-known model of the
    session, its override is gone, and resolving again gives that model. *)
Theorem model_resolution (safeStringify : Thrown -> jsstring) (st : Store) (id : jsstring) :
  selectedSessionId st = Some id ->
  id ≠ [] ->
  selectedSessionModel st =
    match sessionModelOverrideById st !! id with
    | Some override => override
    | None =>
        match sessionModelById st !! id with
        | Some known => known
        | None =>
            match lastUserModelFromMessages (messages st) with
            | Some fromMessages => fromMessages
            | None => defaultModel st
            end
        end
    end
  /\ (forall model,
         lastUserModelFromMessages (messages st) = Some model <->
         exists j msg,
           messages st !! j = Some msg
           /\ message_role (info msg) = user
           /\ message_model (info msg) = Some model
           /\ forall k msg', j < k -> messages st !! k = Some msg' ->
                             modelFromUserMessage (info msg') = None)
  /\ (forall c,
         client st = Some c -> Js.trim (prompt st) ≠ [] ->
         exists st1,
           sendPrompt st = (st1, Some (SendPrompt_prompt id (selectedSessionModel st)))
           /\ forall st2 data,
               exists st3,
                 resume safeStringify (SendPrompt_prompt id (selectedSessionModel st))
                   (PromptResponse (Fulfilled (Data data))) st2
                 = Some (st3, Some (SendPrompt_messages id))
                 /\ sessionModelById st3 !! id = Some (selectedSessionModel st)
                 /\ sessionModelOverrideById st3 !! id = None
                 /\ (selectedSessionId st2 = Some id ->
                     selectedSessionModel st3 = selectedSessionModel st)).
Proof.
  intros Hsel Hid. split; [|split].
  - unfold selectedSessionModel. by rewrite Hsel, (falsy_false _ Hid).
  - intros model. unfold lastUserModelFromMessages. rewrite scan_Some. split.
    + intros (j & msg & Hj & Hmsg & Hmodel & Hlater).
      exists j, msg. unfold modelFromUserMessage in Hmodel.
      destruct (message_role (info msg)) eqn:Hrole; [|done].
      repeat split; [done..|].
      intros k msg' Hjk Hmsg'. apply (Hlater k); [done| |done].
      by eapply lookup_lt_Some.
    + intros (j & msg & Hmsg & Hrole & Hmodel & Hlater).
      exists j, msg. repeat split.
      * by eapply lookup_lt_Some.
      * done.
      * unfold modelFromUserMessage. by rewrite Hrole.
      * intros k msg' Hjk _. by apply Hlater.
  - intros c Hc Hprompt. unfold sendPrompt.
    rewrite Hc, Hsel, (falsy_false _ Hid), (falsy_false _ Hprompt).
    eexists. split; [reflexivity|].
    intros st2 data. eexists. split; [reflexivity|].
    split; [apply rememberModel_known|]. split; [apply rememberModel_override|].
    intros Hsel2. unfold selectedSessionModel at 1.
    rewrite rememberModel_selected, Hsel2, (falsy_false _ Hid).
    by rewrite rememberModel_override, rememberModel_known.
Qed.

(** ** Switching the session *)

(** C1, as stated, fails: with s2 selected, the history fetched for s1 still
    replaces the messages of the store when it arrives. *)
Lemma stale_fetch_overwrites : ~ stale_results_discarded sample_stringify.
Proof.
  intros Hdiscard.
  specialize (Hdiscard switched_world 0 (SelectSession_messages (Js.lit "s1"))
                (MessagesResponse (Fulfilled (Data history_s1)))).
  assert (messages (store (step sample_stringify switched_world
            (Settle 0 (MessagesResponse (Fulfilled (Data history_s1))))))
          = messages (store switched_world)) as Hsame.
  { f_equal. apply Hdiscard; [reflexivity|reflexivity|]. vm_compute. discriminate. }
  vm_compute in Hsame. discriminate.
Qed.

(** C1, amended: [selectSession] issues its fetches for the session it was
    called with, and each result is applied when it arrives, whatever session
    is selected then: the history becomes the messages, the todo snapshot the
    todos (none when the fetch failed), the permission list is reconciled into
    the pending permissions; none of these steps changes the selected session. *)
Theorem selectSession_fetch_results (safeStringify : Thrown -> jsstring)
    (s : jsstring) (st : Store) :
  (forall c,
      client st = Some c ->
      exists st1,
        selectSession s st = (st1, Some (SelectSession_messages s))
        /\ selectedSessionId st1 = Some s)
  /\ (forall msgs,
         exists st1,
           resume safeStringify (SelectSession_messages s)
             (MessagesResponse (Fulfilled (Data msgs))) st
           = Some (st1, Some (SelectSession_todo s))
           /\ messages st1 = msgs
           /\ selectedSessionId st1 = selectedSessionId st)
  /\ (forall settled,
         exists st1,
           resume safeStringify (SelectSession_todo s) (TodoResponse settled) st
           = Some (st1, Some (SelectSession_permissions s))
           /\ todos st1 = match unwrap_await settled with
                          | Return items => items
                          | Throw _ => []
                          end
           /\ selectedSessionId st1 = selectedSessionId st)
  /\ (forall listed now,
         exists st1,
           resume safeStringify (SelectSession_permissions s)
             (PermissionsResponse (Fulfilled (Data listed)) now) st
           = Some (st1, None)
           /\ pendingPermissions st1
              = reconcilePermissions (pendingPermissions st) listed now
           /\ selectedSessionId st1 = selectedSessionId st)
  /\ (forall (w : World) i msgs,
         inflight w !! i = Some (SelectSession_messages s) ->
         let w' := step safeStringify w
                     (Settle i (MessagesResponse (Fulfilled (Data msgs)))) in
         messages (store w') = msgs
         /\ selectedSessionId (store w') = selectedSessionId (store w)
         /\ inflight w' !! i = Some (SelectSession_todo s)).
Proof.
  split; [|split; [|split; [|split]]].
  - intros c Hc. unfold selectSession. rewrite Hc. by eexists.
  - intros msgs. simpl. eexists. split; [reflexivity|].
    by destruct (lastUserModelFromMessages msgs).
  - intros settled. simpl. destruct (unwrap_await settled); by eexists.
  - intros listed now. simpl. by eexists.
  - intros w i msgs Htask. simpl. rewrite Htask. simpl.
    split; [by destruct (lastUserModelFromMessages msgs)|].
    split; [by destruct (lastUserModelFromMessages msgs)|].
    apply list_lookup_insert_eq. by eapply lookup_lt_Some.
Qed.

(** With s2 selected and shown, the history fetched for s1 arrives: it
    becomes the messages of the store, and s2 stays selected. *)
Lemma selectSession_fetch_results_witness :
  messages (store (step sample_stringify switched_world
                     (Settle 0 (MessagesResponse (Fulfilled (Data history_s1))))))
  = history_s1
  /\ selectedSessionId (store (step sample_stringify switched_world
                                 (Settle 0 (MessagesResponse (Fulfilled (Data history_s1))))))
     = Some (Js.lit "s2").
Proof.
  destruct (selectSession_fetch_results sample_stringify (Js.lit "s1") sample_store)
    as (_ & _ & _ & _ & Hworld).
  destruct (Hworld switched_world 0 history_s1) as (Hmessages & Hselected & _);
    [reflexivity|].
  split; [exact Hmessages|].
  rewrite Hselected. reflexivity.
Defined.

(** ** Health probe *)

Section ProbeFacts.

Variable timeoutMs : Z.
Variable start : Z.
Variable now : nat -> Z.
Variable poll : nat -> Settled Health.

Lemma loop_failed_attempt (fuel k : nat) (lastError : option jsstring) (reason : jsstring) :
  (now k - start < timeoutMs)%Z ->
  HealthProbe.failure_reason (poll k) = Some reason ->
  HealthProbe.loop timeoutMs start now poll (S fuel) k lastError
  = HealthProbe.loop timeoutMs start now poll fuel (S k) (Some reason).
Proof.
  intros Hcheck Hreason. simpl.
  apply Z.ltb_lt in Hcheck. rewrite Hcheck.
  unfold HealthProbe.failure_reason in Hreason.
  destruct (unwrap_await (poll k)) as [health|e].
  - destruct (healthy health); [done|]. by inversion Hreason.
  - by inversion Hreason.
Qed.

Lemma loop_failed_attempts (n fuel k : nat) (lastError : option jsstring) :
  (forall j, k <= j < k + n ->
             (now j - start < timeoutMs)%Z
             /\ is_Some (HealthProbe.failure_reason (poll j))) ->
  HealthProbe.loop timeoutMs start now poll (n + fuel) k lastError
  = HealthProbe.loop timeoutMs start now poll fuel (k + n)
      (match n with
       | O => lastError
       | S m => HealthProbe.failure_reason (poll (k + m))
       end).
Proof.
  revert k lastError. induction n as [|n IH]; intros k lastError Hfailed.
  - by rewrite Nat.add_0_r.
  - destruct (Hfailed k) as [Hcheck [reason Hreason]]; [lia|].
    change (S n + fuel) with (S (n + fuel)).
    rewrite (loop_failed_attempt _ _ _ _ Hcheck Hreason).
    rewrite IH by (intros j Hj; apply Hfailed; lia).
    replace (S k + n) with (k + S n) by lia.
    f_equal. destruct n as [|m].
    + by rewrite Nat.add_0_r.
    + f_equal. f_equal. lia.
Qed.

Lemma loop_total (step : Z) (fuel k : nat) (lastError : option jsstring) :
  (forall j, (now j + step <= now (S j))%Z) ->
  (timeoutMs - (now k - start) <= step * Z.of_nat fuel)%Z ->
  is_Some (HealthProbe.loop timeoutMs start now poll (S fuel) k lastError).
Proof.
  intros Hclock. revert k lastError.
  induction fuel as [|fuel IH]; intros k lastError Hleft.
  - simpl. destruct (Z.ltb_spec (now k - start) timeoutMs); [lia|]. by eexists.
  - cbn [HealthProbe.loop].
    destruct (Z.ltb_spec (now k - start) timeoutMs); [|by eexists].
    assert (timeoutMs - (now (S k) - start) <= step * Z.of_nat fuel)%Z as Hnext.
    { specialize (Hclock k). lia. }
    destruct (unwrap_await (poll k)) as [health|e].
    + destruct (healthy health); [by eexists|]. by apply IH.
    + by apply IH.
Qed.

End ProbeFacts.

(** The probe returns or throws whenever the clock read by the loop condition
    advances by at least one millisecond between two attempts. *)
Lemma waitForHealthy_terminates (timeoutMs start : Z) (now : nat -> Z)
    (poll : nat -> Settled Health) (step : Z) :
  (0 < step)%Z ->
  (forall j, (now j + step <= now (S j))%Z) ->
  exists fuel result,
    HealthProbe.waitForHealthy timeoutMs start now poll fuel = Some result.
Proof.
  intros Hstep Hclock.
  exists (S (Z.to_nat (timeoutMs - (now 0 - start)))).
  apply (loop_total timeoutMs start now poll step); [done|]. nia.
Qed.

(** C6, as stated, fails: with a timeout of zero no poll is made, and the
    probe of an endpoint that never reports healthy fails with the generic
    timeout message. *)
Lemma waitForHealthy_generic_timeout :
  HealthProbe.waitForHealthy 0 0 every_250ms unhealthy_poll 1
  = Some (Throw (ErrorObject (Js.lit "Error")
                   (Js.lit "Timed out waiting for server health")))
  /\ HealthProbe.failure_reason (unhealthy_poll 0)
     ≠ Some (Js.lit "Timed out waiting for server health").
Proof. split; [reflexivity|]. vm_compute. discriminate. Qed.

(** C6, amended: when the first [n] attempts are made before the timeout and
    fail, a healthy answer to the next attempt made before the timeout is
    returned as it is, version included; and when the timeout has elapsed at
    the next check, the probe fails with the reason of the last attempt
    ("Server reported unhealthy", the message of the thrown [Error], or
    "Unknown error" for another thrown value) if there was one, and with
    "Timed out waiting for server health" if no attempt was made. *)
Theorem waitForHealthy_spec (timeoutMs start : Z) (now : nat -> Z)
    (poll : nat -> Settled Health) (n : nat) :
  (forall k, k < n ->
             (now k - start < timeoutMs)%Z
             /\ is_Some (HealthProbe.failure_reason (poll k))) ->
  (forall health,
      (now n - start < timeoutMs)%Z ->
      unwrap_await (poll n) = Return health -> healthy health = true ->
      forall fuel, n < fuel ->
        HealthProbe.waitForHealthy timeoutMs start now poll fuel = Some (Return health))
  /\ ((timeoutMs <= now n - start)%Z ->
      forall fuel, n < fuel ->
        match n with
        | O =>
            HealthProbe.waitForHealthy timeoutMs start now poll fuel
            = Some (Throw (ErrorObject (Js.lit "Error")
                             (Js.lit "Timed out waiting for server health")))
        | S m =>
            exists reason,
              HealthProbe.failure_reason (poll m) = Some reason
              /\ HealthProbe.waitForHealthy timeoutMs start now poll fuel
                 = Some (Throw (ErrorObject (Js.lit "Error") reason))
        end)
  /\ (forall health name message stringified asString s,
         HealthProbe.failure_reason (Fulfilled (Data health))
         = (if healthy health then None else Some (Js.lit "Server reported unhealthy"))
         /\ HealthProbe.failure_reason (Rejected (ErrorObject name message)) = Some message
         /\ HealthProbe.failure_reason (Rejected (StringValue s))
            = Some (Js.lit "Unknown error")
         /\ HealthProbe.failure_reason (Rejected (OtherValue stringified asString))
            = Some (Js.lit "Unknown error")).
Proof.
  intros Hfailed.
  assert (forall fuel, n < fuel ->
            HealthProbe.waitForHealthy timeoutMs start now poll fuel
            = HealthProbe.loop timeoutMs start now poll (fuel - n) n
                (match n with
                 | O => None
                 | S m => HealthProbe.failure_reason (poll m)
                 end)) as Hskip.
  { intros fuel Hfuel. unfold HealthProbe.waitForHealthy.
    replace fuel with (n + (fuel - n)) at 1 by lia.
    rewrite loop_failed_attempts; [done|].
    intros j Hj. apply Hfailed. lia. }
  split; [|split].
  - intros health Hcheck Hpoll Hhealthy fuel Hfuel.
    rewrite (Hskip fuel Hfuel).
    destruct (fuel - n) as [|rest] eqn:Hrest; [lia|]. simpl.
    apply Z.ltb_lt in Hcheck. by rewrite Hcheck, Hpoll, Hhealthy.
  - intros Hcheck fuel Hfuel.
    assert (HealthProbe.waitForHealthy timeoutMs start now poll fuel
            = Some (Throw (HealthProbe.timeout_error
                             (match n with
                              | O => None
                              | S m => HealthProbe.failure_reason (poll m)
                              end)))) as Hresult.
    { rewrite (Hskip fuel Hfuel).
      destruct (fuel - n) as [|rest] eqn:Hrest; [lia|]. simpl.
      apply Z.ltb_ge in Hcheck. by rewrite Hcheck. }
    destruct n as [|m]; [exact Hresult|].
    destruct (Hfailed m) as [_ [reason Hreason]]; [lia|].
    exists reason. split; [done|]. by rewrite Hresult, Hreason.
  - intros health name message stringified asString s.
    by repeat split.
Qed.

(** An endpoint that recovers after 600 ms is reported healthy with its
    version; one that stays unhealthy for a timeout of one second fails with
    the reason of its fourth answer. *)
Lemma waitForHealthy_spec_witness :
  HealthProbe.waitForHealthy 10000 0 every_250ms recovering_poll 4
  = Some (Return healthy_1_2_3)
  /\ exists reason,
      HealthProbe.failure_reason (unhealthy_poll 3) = Some reason
      /\ HealthProbe.waitForHealthy 1000 0 every_250ms unhealthy_poll 5
         = Some (Throw (ErrorObject (Js.lit "Error") reason)).
Proof.
  split.
  - assert (forall k, k < 3 ->
              (every_250ms k - 0 < 10000)%Z
              /\ is_Some (HealthProbe.failure_reason (recovering_poll k))) as Hfailed.
    { intros k Hk.
      destruct k as [|[|[|k]]]; [split; [reflexivity|by eexists]..|lia]. }
    destruct (waitForHealthy_spec 10000 0 every_250ms recovering_poll 3 Hfailed)
      as [Hok _].
    apply Hok; [reflexivity|reflexivity|reflexivity|lia].
  - assert (forall k, k < 4 ->
              (every_250ms k - 0 < 1000)%Z
              /\ is_Some (HealthProbe.failure_reason (unhealthy_poll k))) as Hfailed.
    { intros k Hk. split; [unfold every_250ms; lia|by eexists]. }
    destruct (waitForHealthy_spec 1000 0 every_250ms unhealthy_poll 4 Hfailed)
      as (_ & Htimeout & _).
    apply Htimeout; [unfold every_250ms; lia|lia].
Defined.

(** ** Event subscription *)

Lemma onLine_keeps (JSON_parse : jsstring -> option Json) (lv : Live) (line : jsstring) :
  sseConnected (Extension.onLine JSON_parse lv line) = sseConnected lv
  /\ live_error (Extension.onLine JSON_parse lv line) = live_error lv.
Proof.
  unfold Extension.onLine.
  destruct (negb _); [done|].
  destruct (_ || _); [done|].
  destruct (JSON_parse _) as [parsed|]; [|done].
  by destruct (normalizeEvent parsed).
Qed.

Lemma onLines_keep (JSON_parse : jsstring -> option Json) (lines : list jsstring) (lv : Live) :
  sseConnected (fold_left (Extension.onLine JSON_parse) lines lv) = sseConnected lv
  /\ live_error (fold_left (Extension.onLine JSON_parse) lines lv) = live_error lv.
Proof.
  revert lv. induction lines as [|line lines IH]; intros lv; [done|].
  simpl. destruct (IH (Extension.onLine JSON_parse lv line)) as [-> ->].
  apply onLine_keeps.
Qed.

Lemma readLoop_chunks (JSON_parse : jsstring -> option Json)
    (chunks rest : list Extension.ReadResult) (buffer : jsstring) (lv : Live) :
  forallb Extension.is_chunk chunks = true ->
  exists buffer' lv',
    Extension.readLoop JSON_parse (chunks ++ rest) buffer lv
    = Extension.readLoop JSON_parse rest buffer' lv'
    /\ sseConnected lv' = sseConnected lv
    /\ live_error lv' = live_error lv.
Proof.
  revert buffer lv. induction chunks as [|r chunks IH]; intros buffer lv Hchunks.
  - by exists buffer, lv.
  - destruct r as [decoded| |e]; [|done..]. simpl in Hchunks.
    cbn [app Extension.readLoop].
    edestruct IH as (buffer' & lv' & Heq & Hflag & Herr); [done|].
    exists buffer', lv'. split; [exact Heq|].
    rewrite Hflag, Herr. apply onLines_keep.
Qed.

Lemma readLoop_error (JSON_parse : jsstring -> option Json)
    (reads : list Extension.ReadResult) (buffer : jsstring) (lv : Live) :
  live_error (Extension.readLoop JSON_parse reads buffer lv) = live_error lv.
Proof.
  revert buffer lv. induction reads as [|r reads IH]; intros buffer lv; [done|].
  destruct r as [decoded| |e]; simpl.
  - rewrite IH. apply onLines_keep.
  - done.
  - unfold Extension.onError. by destruct (Extension.isAbortError e).
Qed.

Lemma onRecord_flag (developerMode : bool) (lv : Live) (raw : Json) :
  sseConnected (Desktop.onRecord developerMode lv raw)
  = sseConnected lv
    || match normalizeEvent raw with
       | Some event => is_server_connected event
       | None => false
       end.
Proof.
  unfold Desktop.onRecord, is_server_connected.
  destruct (normalizeEvent raw) as [event|]; [|by rewrite orb_false_r].
  destruct (bool_decide _), developerMode; simpl;
    by rewrite ?orb_true_r, ?orb_false_r.
Qed.

Lemma onRecords_flag (developerMode : bool) (items : list Json) (lv : Live) :
  sseConnected (fold_left (Desktop.onRecord developerMode) items lv)
  = sseConnected lv || existsb is_server_connected (omap normalizeEvent items).
Proof.
  revert lv. induction items as [|raw items IH]; intros lv; simpl.
  - by rewrite orb_false_r.
  - rewrite IH, onRecord_flag.
    destruct (normalizeEvent raw) as [event|]; simpl.
    + by rewrite orb_assoc.
    + by rewrite orb_false_r.
Qed.

Lemma onRecords_error (developerMode : bool) (items : list Json) (lv : Live) :
  live_error (fold_left (Desktop.onRecord developerMode) items lv) = live_error lv.
Proof.
  revert lv. induction items as [|raw items IH]; intros lv; simpl; [done|].
  rewrite IH. unfold Desktop.onRecord.
  destruct (normalizeEvent raw) as [event|]; [|done].
  by destruct (bool_decide _), developerMode.
Qed.

Example normalize_shapes :
  normalizeEvent session_updated_record
  = Some {| event_type := Js.lit "session.updated"; event_properties := None |}
  /\ normalizeEvent server_connected_record
     = Some {| event_type := Js.lit "server.connected"; event_properties := None |}
  /\ normalizeEvent (JObject [(Js.lit "kind", JString (Js.lit "x"))]) = None
  /\ normalizeEvent (JString (Js.lit "session.updated")) = None
  /\ normalizeEvent JNull = None.
Proof. repeat split. Qed.

(** A line cut in two by the network is put together again; the [DONE]
    sentinel, a line that does not parse and a line without the prefix leave no
    record. *)
Example extension_buffers_lines :
  events (Extension.subscribe parse_ping
            (Extension.SubBody
               [ Extension.ReadChunk (Js.lit "da");
                 Extension.ReadChunk
                   (Js.lit "ta: PI" ++ Js.lit "NG" ++ [Js.newline; Js.newline]
                    ++ Js.lit "data: [DONE]" ++ [Js.newline]
                    ++ Js.lit "data: {broken" ++ [Js.newline]
                    ++ Js.lit "event: x" ++ [Js.newline]
                    ++ Js.lit "data: PING") ])
            idle_live)
  = [ {| event_type := Js.lit "session.updated"; event_properties := None |} ].
Proof. reflexivity. Qed.

(** C9, as stated, fails in both clients: the extension raises the flag when
    the response has a body, before any read has settled; the desktop client
    leaves it down after a normalized record of another type than
    "server.connected". *)
Lemma live_flag_not_first_record :
  (sseConnected (Extension.subscribe reject_all (Extension.SubBody []) idle_live) = true
   /\ events (Extension.subscribe reject_all (Extension.SubBody []) idle_live) = [])
  /\ (is_Some (normalizeEvent session_updated_record)
      /\ sseConnected (Desktop.subscribe true
                         (Desktop.SubStream [session_updated_record] Desktop.StreamPending)
                         idle_live) = false).
Proof.
  split; [by split|].
  split; [by eexists|reflexivity].
Qed.

(** C9, amended. Extension client: the flag is up from the moment the
    response has a body, through every chunk and the end of the stream; a
    rejected subscription or read leaves the flag as it is when the error is
    an AbortError and clears it otherwise; no error is surfaced. Desktop
    client: while the stream delivers, ends or is cancelled, the flag is up
    once a normalized record of type "server.connected" has been seen; the
    message of a failure is surfaced unless the effect was cancelled or the
    message mentions an abort. *)
Theorem subscribe_live_flag (JSON_parse : jsstring -> option Json)
    (developerMode : bool) (lv : Live) :
  (forall chunks,
      forallb Extension.is_chunk chunks = true ->
      sseConnected (Extension.subscribe JSON_parse (Extension.SubBody chunks) lv) = true
      /\ forall rest,
          sseConnected (Extension.subscribe JSON_parse
                          (Extension.SubBody (chunks ++ Extension.ReadDone :: rest)) lv)
          = true)
  /\ (forall chunks e rest,
         forallb Extension.is_chunk chunks = true ->
         sseConnected (Extension.subscribe JSON_parse
                         (Extension.SubBody (chunks ++ Extension.ReadRejected e :: rest)) lv)
         = Extension.isAbortError e)
  /\ (forall e,
         Extension.subscribe JSON_parse (Extension.SubRejected e) lv
         = if Extension.isAbortError e then lv else setSseConnected false lv)
  /\ (forall sub, live_error (Extension.subscribe JSON_parse sub lv) = live_error lv)
  /\ (forall items ending,
         match ending with
         | Desktop.StreamThrew _ _ => True
         | _ =>
             sseConnected (Desktop.subscribe developerMode
                             (Desktop.SubStream items ending) lv)
             = sseConnected lv || existsb is_server_connected (omap normalizeEvent items)
         end)
  /\ (forall items cancelled e,
         live_error (Desktop.subscribe developerMode
                       (Desktop.SubStream items (Desktop.StreamThrew cancelled e)) lv)
         = if cancelled
              || Js.includes (Js.lit "abort")
                   (Js.toLowerCase (error_message_or e (Desktop.toString e)))
           then live_error lv
           else Some (error_message_or e (Desktop.toString e))).
Proof.
  split; [|split; [|split; [|split; [|split]]]].
  - intros chunks Hchunks. split.
    + destruct (readLoop_chunks JSON_parse chunks [] [] (setSseConnected true lv) Hchunks)
        as (buffer' & lv' & Heq & Hflag & _).
      rewrite app_nil_r in Heq. simpl. rewrite Heq. simpl. by rewrite Hflag.
    + intros rest.
      destruct (readLoop_chunks JSON_parse chunks (Extension.ReadDone :: rest) []
                  (setSseConnected true lv) Hchunks)
        as (buffer' & lv' & Heq & Hflag & _).
      simpl. rewrite Heq. simpl. by rewrite Hflag.
  - intros chunks e rest Hchunks.
    destruct (readLoop_chunks JSON_parse chunks (Extension.ReadRejected e :: rest) []
                (setSseConnected true lv) Hchunks)
      as (buffer' & lv' & Heq & Hflag & _).
    simpl. rewrite Heq. simpl. unfold Extension.onError.
    destruct (Extension.isAbortError e); [by rewrite Hflag|done].
  - done.
  - intros [e| |reads]; simpl.
    + unfold Extension.onError. by destruct (Extension.isAbortError e).
    + done.
    + by rewrite readLoop_error.
  - intros items ending.
    destruct ending as [| | |cancelled e]; [apply onRecords_flag..|exact I].
  - intros items cancelled e. simpl. unfold Desktop.onError.
    destruct cancelled; simpl; [apply onRecords_error|].
    destruct (Js.includes _ _); [apply onRecords_error|done].
Qed.

(** After one chunk, an aborted read leaves the flag up and a network error
    clears it. *)
Lemma subscribe_live_flag_witness :
  sseConnected (Extension.subscribe reject_all
                  (Extension.SubBody [Extension.ReadChunk (Js.lit "data: {}");
                                      Extension.ReadRejected abort_error]) idle_live)
  = true
  /\ sseConnected (Extension.subscribe reject_all
                     (Extension.SubBody [Extension.ReadChunk (Js.lit "data: {}");
                                         Extension.ReadRejected network_error]) idle_live)
     = false.
Proof.
  destruct (subscribe_live_flag reject_all false idle_live) as (_ & Hrejected & _).
  split.
  - apply (Hrejected [Extension.ReadChunk (Js.lit "data: {}")] abort_error []).
    reflexivity.
  - apply (Hrejected [Extension.ReadChunk (Js.lit "data: {}")] network_error []).
    reflexivity.
Defined.

(** ** The scenarios of the specification *)

(** Three events, two of them for s1: s1 holds the third payload and s2 is
    where and what it was. *)
Lemma upsertSession_sequence_witness :
  findSession (Js.lit "s1") (upsertSessions stored_sessions session_payloads)
  = Some (sample_session "s1" "third")
  /\ upsertSessions stored_sessions session_payloads !! 1
     = Some (sample_session "s2" "other").
Proof.
  destruct (upsertSession_sequence stored_sessions session_payloads)
    as (Hfind & Hother & _ & _).
  split.
  - rewrite Hfind. reflexivity.
  - apply Hother; [reflexivity|].
    apply (bool_decide_eq_false_1 _). vm_compute. reflexivity.
Defined.

(** An update of m1 keeps its part; a first message comes with no parts. *)
Lemma upsertMessage_frame_witness :
  upsertMessage stored_messages (sample_message "m1" "s1" assistant None) !! 0
  = Some {| info := sample_message "m1" "s1" assistant None;
            parts := [ sample_part "p1" "m1" "hi" ] |}
  /\ upsertMessage [] (sample_message "m1" "s1" user None)
     = [ {| info := sample_message "m1" "s1" user None; parts := [] |} ].
Proof.
  split.
  - destruct (upsertMessage_frame stored_messages (sample_message "m1" "s1" assistant None))
      as [Hpresent _].
    destruct (Hpresent {| info := sample_message "m1" "s1" user None;
                          parts := [ sample_part "p1" "m1" "hi" ] |})
      as (idx & Hidx & Hnew & _); [reflexivity|].
    destruct idx as [|idx]; [exact Hnew|]. vm_compute in Hidx.
    destruct idx; discriminate.
  - destruct (upsertMessage_frame [] (sample_message "m1" "s1" user None)) as [_ Habsent].
    apply Habsent. reflexivity.
Defined.

(** A part that arrives before its message is dropped; after
    [message.created] for m1, [message.part.created] for p1 leaves m1 with
    exactly the part p1. *)
Lemma upsertPart_spec_witness :
  upsertPart [] (sample_part "p1" "m1" "hi") = []
  /\ findMessage (Js.lit "m1")
       (upsertPart (upsertMessage [] (sample_message "m1" "s1" user None))
          (sample_part "p1" "m1" "hi"))
     = Some {| info := sample_message "m1" "s1" user None;
               parts := [ sample_part "p1" "m1" "hi" ] |}.
Proof.
  destruct (upsertPart_spec [] (sample_part "p1" "m1" "hi")) as (Hnone & Hfresh & _).
  split.
  - apply Hnone. reflexivity.
  - apply (Hfresh (sample_message "m1" "s1" user None)); reflexivity.
Defined.

(** Removing from an unknown message, or an unknown part, changes nothing. *)
Lemma removePart_idempotent_witness :
  removePart stored_messages (Js.lit "m9") (Js.lit "p1") = stored_messages
  /\ removePart stored_messages (Js.lit "m1") (Js.lit "p9") = stored_messages.
Proof.
  split.
  - destruct (removePart_idempotent stored_messages (Js.lit "m9") (Js.lit "p1"))
      as (_ & Hnone & _).
    apply Hnone. reflexivity.
  - destruct (removePart_idempotent stored_messages (Js.lit "m1") (Js.lit "p9"))
      as (_ & _ & Hpart).
    eapply Hpart; [reflexivity|].
    apply (bool_decide_eq_false_1 _). vm_compute. reflexivity.
Defined.

(** perm1 was received at 1000; the list fetched at 5000 holds perm1 and
    perm2: perm1 keeps 1000 and perm2 gets 5000. *)
Lemma reconcilePermissions_spec_witness :
  reconcilePermissions held_permissions listed_permissions 5000
  = [ {| request := sample_permission "perm1"; receivedAt := 1000 |};
      {| request := sample_permission "perm2"; receivedAt := 5000 |} ]
  /\ receivedAt {| request := sample_permission "perm1"; receivedAt := 1000 |} = 1000%Z.
Proof.
  split; [reflexivity|].
  destruct (reconcilePermissions_spec held_permissions listed_permissions 5000)
    as (_ & _ & Hkept & _).
  apply (Hkept ltac:(apply NoDup_singleton)
           {| request := sample_permission "perm1"; receivedAt := 1000 |}
           {| request := sample_permission "perm1"; receivedAt := 1000 |}).
  - apply list_elem_of_here.
  - apply list_elem_of_here.
  - reflexivity.
Defined.

(** With the override openai/gpt-5 and the last-known model anthropic/claude
    the resolver gives openai/gpt-5, and after the prompt is sent openai/gpt-5
    is the last-known model, the override is gone, and the resolver still gives
    openai/gpt-5. *)
Lemma model_resolution_witness :
  selectedSessionModel scenario_store = openai_gpt5
  /\ exists st1 st3,
      sendPrompt scenario_store = (st1, Some (SendPrompt_prompt (Js.lit "s1") openai_gpt5))
      /\ resume sample_stringify (SendPrompt_prompt (Js.lit "s1") openai_gpt5)
           (PromptResponse (Fulfilled (Data tt))) st1
         = Some (st3, Some (SendPrompt_messages (Js.lit "s1")))
      /\ sessionModelById st3 !! Js.lit "s1" = Some openai_gpt5
      /\ sessionModelOverrideById st3 !! Js.lit "s1" = None
      /\ selectedSessionModel st3 = openai_gpt5.
Proof.
  assert (selectedSessionModel scenario_store = openai_gpt5) as Hmodel by reflexivity.
  destruct (model_resolution sample_stringify scenario_store (Js.lit "s1"))
    as (_ & _ & Hsend); [reflexivity|discriminate|].
  split; [exact Hmodel|].
  destruct (Hsend sample_client) as (st1 & Hstart & Hdone); [reflexivity|discriminate|].
  destruct (Hdone st1 tt) as (st3 & Hresume & Hknown & Hoverride & Hagain).
  rewrite Hmodel in *.
  exists st1, st3. repeat split; [done..|].
  apply Hagain. by inversion Hstart.
Defined.

(** * Further properties of the code *)

(** ** Identity invariants of the state store *)

Lemma upsertMessage_cons (x : MessageWithParts) (l : list MessageWithParts)
    (nextInfo : Message) :
  upsertMessage (x :: l) nextInfo =
  if same_id (message_id (info x)) (message_id nextInfo)
  then {| info := nextInfo; parts := parts x |} :: l
  else x :: upsertMessage l nextInfo.
Proof.
  unfold upsertMessage. simpl.
  destruct (same_id (message_id (info x)) (message_id nextInfo)); [done|].
  destruct (findIndex _ l) as [idx|]; simpl; [|done].
  by destruct (l !! idx).
Qed.

Lemma upsertPart_cons (x : MessageWithParts) (l : list MessageWithParts) (p : Part) :
  upsertPart (x :: l) p =
  if same_id (message_id (info x)) (part_messageID p)
  then {| info := info x; parts := upsertPartIn (parts x) p |} :: l
  else x :: upsertPart l p.
Proof.
  unfold upsertPart, upsertPartIn. simpl.
  destruct (same_id (message_id (info x)) (part_messageID p)); [done|].
  destruct (findIndex _ l) as [idx|]; simpl; [|done].
  by destruct (l !! idx).
Qed.

Lemma upsertPartIn_cons (x : Part) (ps : list Part) (p : Part) :
  upsertPartIn (x :: ps) p =
  if same_id (part_id x) (part_id p) then p :: ps else x :: upsertPartIn ps p.
Proof.
  unfold upsertPartIn. simpl.
  destruct (same_id (part_id x) (part_id p)); [done|].
  by destruct (findIndex _ ps).
Qed.

Lemma upsertPartIn_ids (ps : list Part) (p : Part) :
  part_ids (upsertPartIn ps p) =
  if bool_decide (part_id p ∈ part_ids ps) then part_ids ps
  else part_ids ps ++ [part_id p].
Proof.
  unfold part_ids. induction ps as [|x ps IH].
  - cbn. rewrite bool_decide_eq_false_2; [done|]. apply not_elem_of_nil.
  - rewrite upsertPartIn_cons.
    destruct (same_id (part_id x) (part_id p)) eqn:Hx; cbn [map app].
    + apply same_id_true in Hx. rewrite bool_decide_eq_true_2; [by rewrite Hx|].
      rewrite Hx. apply elem_of_cons. by left.
    + apply same_id_false in Hx. rewrite IH.
      destruct (bool_decide (part_id p ∈ map part_id ps)) eqn:Hin.
      * apply bool_decide_eq_true in Hin.
        rewrite bool_decide_eq_true_2; [done|]. apply elem_of_cons. by right.
      * apply bool_decide_eq_false in Hin.
        rewrite bool_decide_eq_false_2; [done|].
        intros [?|?]%elem_of_cons; congruence.
Qed.

Lemma NoDup_snoc_fresh (ids : list jsstring) (id : jsstring) :
  NoDup ids -> id ∉ ids -> NoDup (ids ++ [id]).
Proof.
  intros Hnd Hfresh. apply NoDup_app. split; [done|]. split; [|apply NoDup_singleton].
  intros x Hx ->%list_elem_of_singleton. done.
Qed.

(** X1: [upsertSession] keeps the session ids pairwise distinct, and the list
    grows by one entry at most. *)
Theorem upsertSession_keeps_ids_distinct (l : list Session) (next : Session) :
  NoDup (session_ids l) ->
  NoDup (session_ids (upsertSession l next))
  /\ length l <= length (upsertSession l next) <= S (length l).
Proof.
  intros Hnd.
  assert (length (upsertSession l next) = length (session_ids (upsertSession l next)))
    as Hlen by (unfold session_ids; by rewrite length_map).
  rewrite Hlen, upsertSession_ids.
  assert (length (session_ids l) = length l) as Hl
    by (unfold session_ids; by rewrite length_map).
  case_bool_decide as Hin.
  - split; [done|]. lia.
  - split; [by apply NoDup_snoc_fresh|]. rewrite length_app. simpl. lia.
Qed.

Lemma upsertSession_keeps_ids_distinct_witness :
  NoDup (session_ids (upsertSession stored_sessions (sample_session "s3" "new")))
  /\ length stored_sessions
     <= length (upsertSession stored_sessions (sample_session "s3" "new"))
     <= S (length stored_sessions).
Proof.
  apply (upsertSession_keeps_ids_distinct stored_sessions (sample_session "s3" "new")).
  apply (bool_decide_unpack _). vm_compute. exact I.
Defined.

(** X2: of two upserts for the same session id only the second counts; in
    particular an upsert applied twice equals the upsert applied once. *)
Theorem upsertSession_last_write_wins (l : list Session) (a b : Session) :
  session_id a = session_id b ->
  upsertSession (upsertSession l a) b = upsertSession l b.
Proof.
  intros Hid. induction l as [|x l IH].
  - rewrite !upsertSession_nil, upsertSession_cons.
    by rewrite (proj2 (same_id_true _ _) Hid).
  - rewrite !upsertSession_cons. rewrite <- Hid.
    destruct (same_id (session_id x) (session_id a)) eqn:Hx.
    + rewrite upsertSession_cons. by rewrite (proj2 (same_id_true _ _) Hid).
    + rewrite upsertSession_cons. rewrite <- Hid, Hx. by rewrite IH.
Qed.

Lemma upsertSession_last_write_wins_witness :
  upsertSession (upsertSession stored_sessions (sample_session "s1" "second"))
    (sample_session "s1" "third")
  = upsertSession stored_sessions (sample_session "s1" "third").
Proof.
  apply (upsertSession_last_write_wins stored_sessions). reflexivity.
Defined.

(** X3: [upsertPart] and [removePart] never add, drop, move or rewrite the
    info of a message: the infos of the collection stay as they are, in
    order. *)
Theorem part_operations_keep_infos (l : list MessageWithParts) (p : Part)
    (messageID partID : jsstring) :
  map info (upsertPart l p) = map info l
  /\ map info (removePart l messageID partID) = map info l.
Proof.
  split.
  - induction l as [|x l IH]; [done|].
    rewrite upsertPart_cons.
    destruct (same_id _ _); simpl; [done|]. by rewrite IH.
  - induction l as [|x l IH]; [done|].
    rewrite removePart_cons.
    destruct (same_id _ _); simpl; [done|]. by rewrite IH.
Qed.

Lemma upsertMessage_ids (l : list MessageWithParts) (nextInfo : Message) :
  message_ids (upsertMessage l nextInfo) =
  if bool_decide (message_id nextInfo ∈ message_ids l) then message_ids l
  else message_ids l ++ [message_id nextInfo].
Proof.
  unfold message_ids. induction l as [|x l IH].
  - cbn. rewrite bool_decide_eq_false_2; [done|]. apply not_elem_of_nil.
  - rewrite upsertMessage_cons.
    destruct (same_id (message_id (info x)) (message_id nextInfo)) eqn:Hx; cbn [map app].
    + apply same_id_true in Hx. cbn [info].
      rewrite bool_decide_eq_true_2; [by rewrite Hx|].
      rewrite Hx. apply elem_of_cons. by left.
    + apply same_id_false in Hx. rewrite IH.
      destruct (bool_decide (message_id nextInfo ∈ map _ l)) eqn:Hin.
      * apply bool_decide_eq_true in Hin.
        rewrite bool_decide_eq_true_2; [done|]. apply elem_of_cons. by right.
      * apply bool_decide_eq_false in Hin.
        rewrite bool_decide_eq_false_2; [done|].
        intros [?|?]%elem_of_cons; congruence.
Qed.

Lemma upsertMessage_parts_distinct (l : list MessageWithParts) (nextInfo : Message) :
  parts_distinct l -> parts_distinct (upsertMessage l nextInfo).
Proof.
  unfold parts_distinct. induction l as [|x l IH]; intros Hl.
  - cbn. constructor; [apply NoDup_nil_2|constructor].
  - rewrite upsertMessage_cons. inversion Hl as [|? ? Hx Hrest]; subst.
    destruct (same_id _ _); constructor; auto.
Qed.

Lemma upsertPartIn_NoDup (ps : list Part) (p : Part) :
  NoDup (part_ids ps) -> NoDup (part_ids (upsertPartIn ps p)).
Proof.
  intros Hnd. rewrite upsertPartIn_ids. case_bool_decide; [done|].
  by apply NoDup_snoc_fresh.
Qed.

Lemma filter_part_ids_NoDup (partID : jsstring) (ps : list Part) :
  NoDup (part_ids ps) ->
  NoDup (part_ids (filter (fun p => part_id p ≠ partID) ps)).
Proof.
  unfold part_ids. induction ps as [|x ps IH]; [done|].
  cbn [map]. intros [Hx Hnd]%NoDup_cons.
  rewrite filter_cons. destruct (decide (part_id x ≠ partID)); [|by apply IH].
  cbn [map]. apply NoDup_cons. split; [|by apply IH].
  intros (y & Hy & Hin)%list_elem_of_fmap. apply Hx.
  apply list_elem_of_fmap. exists y. split; [done|].
  by apply list_elem_of_filter in Hin as [_ ?].
Qed.

Lemma upsertPart_ids (l : list MessageWithParts) (p : Part) :
  message_ids (upsertPart l p) = message_ids l.
Proof.
  unfold message_ids. induction l as [|x l IH]; [done|].
  rewrite upsertPart_cons. destruct (same_id _ _); simpl; [done|]. by rewrite IH.
Qed.

Lemma removePart_ids (l : list MessageWithParts) (messageID partID : jsstring) :
  message_ids (removePart l messageID partID) = message_ids l.
Proof.
  unfold message_ids. induction l as [|x l IH]; [done|].
  rewrite removePart_cons. destruct (same_id _ _); simpl; [done|]. by rewrite IH.
Qed.

Lemma upsertPart_parts_distinct (l : list MessageWithParts) (p : Part) :
  parts_distinct l -> parts_distinct (upsertPart l p).
Proof.
  unfold parts_distinct. induction l as [|x l IH]; intros Hl; [done|].
  inversion Hl as [|? ? Hx Hrest]; subst.
  rewrite upsertPart_cons. destruct (same_id _ _); constructor; auto.
  by apply upsertPartIn_NoDup.
Qed.

Lemma removePart_parts_distinct (l : list MessageWithParts) (messageID partID : jsstring) :
  parts_distinct l -> parts_distinct (removePart l messageID partID).
Proof.
  unfold parts_distinct. induction l as [|x l IH]; intros Hl; [done|].
  inversion Hl as [|? ? Hx Hrest]; subst.
  rewrite removePart_cons. destruct (same_id _ _); constructor; auto.
  by apply filter_part_ids_NoDup.
Qed.

Lemma upsertSession_NoDup (l : list Session) (next : Session) :
  NoDup (session_ids l) -> NoDup (session_ids (upsertSession l next)).
Proof.
  intros Hnd. rewrite upsertSession_ids. case_bool_decide; [done|].
  by apply NoDup_snoc_fresh.
Qed.

Lemma upsertMessage_NoDup (l : list MessageWithParts) (nextInfo : Message) :
  NoDup (message_ids l) -> NoDup (message_ids (upsertMessage l nextInfo)).
Proof.
  intros Hnd. rewrite upsertMessage_ids. case_bool_decide; [done|].
  by apply NoDup_snoc_fresh.
Qed.

(** X4: [upsertMessage], [upsertPart] and [removePart] keep the message ids
    of a transcript pairwise distinct and the part ids of every message
    pairwise distinct. *)
Theorem transcript_operations_keep_ids_distinct (l : list MessageWithParts)
    (nextInfo : Message) (p : Part) (messageID partID : jsstring) :
  NoDup (message_ids l) /\ parts_distinct l ->
  (NoDup (message_ids (upsertMessage l nextInfo))
   /\ parts_distinct (upsertMessage l nextInfo))
  /\ (NoDup (message_ids (upsertPart l p)) /\ parts_distinct (upsertPart l p))
  /\ (NoDup (message_ids (removePart l messageID partID))
      /\ parts_distinct (removePart l messageID partID)).
Proof.
  intros [Hnd Hparts]. split; [|split].
  - split; [by apply upsertMessage_NoDup|by apply upsertMessage_parts_distinct].
  - rewrite upsertPart_ids. split; [done|by apply upsertPart_parts_distinct].
  - rewrite removePart_ids. split; [done|by apply removePart_parts_distinct].
Qed.

Lemma transcript_operations_keep_ids_distinct_witness :
  (NoDup (message_ids (upsertMessage stored_messages
                         (sample_message "m2" "s1" assistant None)))
   /\ parts_distinct (upsertMessage stored_messages
                        (sample_message "m2" "s1" assistant None)))
  /\ (NoDup (message_ids (upsertPart stored_messages (sample_part "p2" "m1" "there")))
      /\ parts_distinct (upsertPart stored_messages (sample_part "p2" "m1" "there")))
  /\ (NoDup (message_ids (removePart stored_messages (Js.lit "m1") (Js.lit "p1")))
      /\ parts_distinct (removePart stored_messages (Js.lit "m1") (Js.lit "p1"))).
Proof.
  apply (transcript_operations_keep_ids_distinct stored_messages).
  split; [apply NoDup_singleton|].
  constructor; [apply NoDup_singleton|constructor].
Defined.

(** ** How the part operations compose *)

Lemma upsertPartIn_last_write_wins (ps : list Part) (a b : Part) :
  part_id a = part_id b ->
  upsertPartIn (upsertPartIn ps a) b = upsertPartIn ps b.
Proof.
  intros Hid. induction ps as [|x ps IH].
  - change (upsertPartIn [] a) with [a]. rewrite upsertPartIn_cons.
    by rewrite (proj2 (same_id_true _ _) Hid).
  - rewrite !upsertPartIn_cons. rewrite <- Hid.
    destruct (same_id (part_id x) (part_id a)) eqn:Hx.
    + rewrite upsertPartIn_cons. by rewrite (proj2 (same_id_true _ _) Hid).
    + rewrite upsertPartIn_cons. rewrite <- Hid, Hx. by rewrite IH.
Qed.

(** X5: of two upserts of a part id into the same message only the second
    counts; in particular a part event delivered twice changes nothing the
    second time. *)
Theorem upsertPart_last_write_wins (l : list MessageWithParts) (a b : Part) :
  part_id a = part_id b ->
  part_messageID a = part_messageID b ->
  upsertPart (upsertPart l a) b = upsertPart l b.
Proof.
  intros Hid Hmsg. induction l as [|x l IH]; [done|].
  rewrite !upsertPart_cons. rewrite <- Hmsg.
  destruct (same_id (message_id (info x)) (part_messageID a)) eqn:Hx.
  - rewrite upsertPart_cons. cbn [info parts]. rewrite <- Hmsg, Hx.
    by rewrite upsertPartIn_last_write_wins.
  - rewrite upsertPart_cons. rewrite <- Hmsg, Hx. by rewrite IH.
Qed.

Lemma upsertPart_last_write_wins_witness :
  upsertPart (upsertPart stored_messages (sample_part "p1" "m1" "hi th"))
    (sample_part "p1" "m1" "hi there")
  = upsertPart stored_messages (sample_part "p1" "m1" "hi there").
Proof.
  apply (upsertPart_last_write_wins stored_messages); reflexivity.
Defined.

Lemma filter_upsertPartIn_fresh (ps : list Part) (p : Part) :
  part_id p ∉ part_ids ps ->
  filter (fun q => part_id q ≠ part_id p) (upsertPartIn ps p) = ps.
Proof.
  unfold part_ids. induction ps as [|x ps IH]; cbn [map]; intros Hfresh.
  - change (upsertPartIn [] p) with [p].
    rewrite filter_cons. by destruct (decide (part_id p ≠ part_id p)).
  - apply not_elem_of_cons in Hfresh as [Hx Hps].
    rewrite upsertPartIn_cons.
    rewrite (proj2 (same_id_false (part_id x) (part_id p))) by congruence.
    rewrite filter_cons. destruct (decide (part_id x ≠ part_id p)) as [_|Hn].
    + by rewrite (IH Hps).
    + destruct Hn. congruence.
Qed.

(** X6: removing a part right after it was added under a part id its
    message did not hold gives back the collection as it was; this also covers
    a part whose message is absent, where both steps do nothing. *)
Theorem removePart_undoes_upsertPart (l : list MessageWithParts) (p : Part) :
  (forall msg, findMessage (part_messageID p) l = Some msg ->
               part_id p ∉ part_ids (parts msg)) ->
  removePart (upsertPart l p) (part_messageID p) (part_id p) = l.
Proof.
  unfold findMessage. induction l as [|x l IH]; intros Hfresh; [done|].
  rewrite upsertPart_cons. simpl in Hfresh.
  destruct (same_id (message_id (info x)) (part_messageID p)) eqn:Hx.
  - rewrite removePart_cons. cbn [info parts]. rewrite Hx.
    rewrite filter_upsertPartIn_fresh by by apply Hfresh.
    by destruct x.
  - rewrite removePart_cons, Hx. by rewrite (IH Hfresh).
Qed.

Lemma removePart_undoes_upsertPart_witness :
  removePart (upsertPart stored_messages (sample_part "p2" "m1" "there"))
    (Js.lit "m1") (Js.lit "p2")
  = stored_messages.
Proof.
  apply (removePart_undoes_upsertPart stored_messages (sample_part "p2" "m1" "there")).
  intros msg Hmsg. vm_compute in Hmsg. injection Hmsg as <-.
  apply (bool_decide_eq_false_1 _). vm_compute. reflexivity.
Defined.

Lemma filter_no_part (partID : jsstring) (ps : list Part) :
  partID ∉ part_ids (filter (fun p => part_id p ≠ partID) ps).
Proof.
  unfold part_ids. intros (q & -> & Hin)%list_elem_of_fmap.
  by apply list_elem_of_filter in Hin as [Hne _].
Qed.

(** X7: after [removePart] the message found for [messageID] holds no part
    with [partID], however many it held before, and holds every other part it
    held, in the same order. *)
Theorem removePart_removes_every_match (l : list MessageWithParts)
    (messageID partID : jsstring) (msg : MessageWithParts) :
  findMessage messageID l = Some msg ->
  exists msg',
    findMessage messageID (removePart l messageID partID) = Some msg'
    /\ info msg' = info msg
    /\ (partID ∉ part_ids (parts msg'))
    /\ parts msg' = filter (fun p => part_id p ≠ partID) (parts msg).
Proof.
  unfold findMessage. induction l as [|x l IH]; [done|].
  rewrite removePart_cons. simpl.
  destruct (same_id (message_id (info x)) messageID) eqn:Hx.
  - intros [= <-]. eexists. simpl. rewrite Hx.
    split; [reflexivity|]. split; [done|]. split; [apply filter_no_part|done].
  - intros Hfound. simpl. rewrite Hx. by apply IH.
Qed.

Lemma removePart_removes_every_match_witness :
  exists msg',
    findMessage (Js.lit "m1") (removePart stored_messages (Js.lit "m1") (Js.lit "p1"))
    = Some msg'
    /\ info msg' = sample_message "m1" "s1" user None
    /\ (Js.lit "p1" ∉ part_ids (parts msg'))
    /\ parts msg' = [].
Proof.
  destruct (removePart_removes_every_match stored_messages (Js.lit "m1") (Js.lit "p1")
              {| info := sample_message "m1" "s1" user None;
                 parts := [ sample_part "p1" "m1" "hi" ] |})
    as (msg' & Hfound & Hinfo & Hnone & Hparts); [reflexivity|].
  exists msg'. split; [exact Hfound|]. split; [exact Hinfo|]. split; [exact Hnone|].
  rewrite Hparts. reflexivity.
Defined.

(** ** Model references, read back *)

Lemma split_head_no_sep (sep : N) (s piece : jsstring) (pieces : list jsstring) :
  Js.split sep s = piece :: pieces -> sep ∉ piece.
Proof.
  revert piece pieces. induction s as [|c s IH]; intros piece pieces; simpl.
  - intros [= <- <-]. apply not_elem_of_nil.
  - destruct (N.eqb_spec c sep) as [->|Hne].
    + intros [= <- <-]. apply not_elem_of_nil.
    + destruct (Js.split sep s) as [|piece' pieces'] eqn:E.
      * intros [= <- <-]. intros ->%list_elem_of_singleton. done.
      * intros [= <- <-]. apply not_elem_of_cons. split; [congruence|].
        by eapply IH.
Qed.

Lemma split_no_sep (sep : N) (s : jsstring) : sep ∉ s -> Js.split sep s = [s].
Proof.
  induction s as [|c s IH]; [done|].
  intros [Hc Hs]%not_elem_of_cons. simpl.
  destruct (N.eqb_spec c sep) as [->|_]; [done|]. by rewrite (IH Hs).
Qed.

Lemma split_with_sep (sep : N) (s : jsstring) :
  sep ∈ s -> exists piece next pieces, Js.split sep s = piece :: next :: pieces.
Proof.
  induction s as [|c s IH]; [by intros ?%elem_of_nil|].
  intros Hin. simpl. destruct (N.eqb_spec c sep) as [->|Hne].
  - pose proof (split_nonempty sep s) as Hs.
    destruct (Js.split sep s) as [|next pieces]; [done|]. by eexists _, _, _.
  - apply elem_of_cons in Hin as [?|Hin]; [congruence|].
    destruct (IH Hin) as (piece & next & pieces & ->). by eexists _, _, _.
Qed.

Lemma split_head_empty (sep : N) (s : jsstring) (pieces : list jsstring) :
  Js.split sep s = [] :: pieces -> s = [] \/ exists rest, s = sep :: rest.
Proof.
  destruct s as [|c s]; [by left|]. simpl.
  destruct (N.eqb_spec c sep) as [->|_]; [right; by eexists|].
  by destruct (Js.split sep s).
Qed.

(** X8: whatever [parseModelRef] accepts, [formatModelRef] writes back as
    the trimmed input; the provider it returns is never empty and holds no
    slash. *)
Theorem formatModelRef_parseModelRef (raw : jsstring) (m : ModelRef) :
  parseModelRef (Some raw) = Some m ->
  formatModelRef m = Js.trim raw
  /\ providerID m ≠ []
  /\ Js.slash ∉ providerID m.
Proof.
  unfold parseModelRef.
  destruct (Js.falsy raw); [done|].
  destruct (Js.falsy (Js.trim raw)); [done|].
  destruct (Js.split Js.slash (Js.trim raw)) as [|provider rest] eqn:Hsplit; [done|].
  destruct (Js.falsy provider) eqn:Hprovider; [done|].
  destruct rest as [|next rest]; [done|]. simpl.
  intros [= <-]. simpl. split; [|split].
  - unfold formatModelRef. simpl.
    rewrite <- (join_split Js.slash (Js.trim raw)), Hsplit. done.
  - by destruct provider.
  - by eapply split_head_no_sep.
Qed.

Lemma formatModelRef_parseModelRef_witness :
  formatModelRef {| providerID := Js.lit "openrouter"; modelID := Js.lit "meta/llama" |}
  = Js.trim (Js.lit " openrouter/meta/llama ")
  /\ Js.lit "openrouter" ≠ []
  /\ Js.slash ∉ Js.lit "openrouter".
Proof.
  apply (formatModelRef_parseModelRef (Js.lit " openrouter/meta/llama ")
           {| providerID := Js.lit "openrouter"; modelID := Js.lit "meta/llama" |}).
  reflexivity.
Defined.

(** X9: [parseModelRef] rejects a stored string exactly when, once trimmed,
    it holds no slash or starts with one; an empty or blank string is the first
    case. *)
Theorem parseModelRef_rejects (raw : jsstring) :
  parseModelRef (Some raw) = None <->
  (Js.slash ∉ Js.trim raw) \/ (exists rest, Js.trim raw = Js.slash :: rest).
Proof.
  unfold parseModelRef. split.
  - destruct (Js.falsy raw) eqn:Hraw.
    { intros _. left. destruct raw; [|done]. apply not_elem_of_nil. }
    destruct (Js.falsy (Js.trim raw)) eqn:Htrim.
    { intros _. left. destruct (Js.trim raw); [|done]. apply not_elem_of_nil. }
    destruct (decide (Js.slash ∈ Js.trim raw)) as [Hin|Hnot]; [|by left].
    destruct (split_with_sep _ _ Hin) as (piece & next & pieces & Hsplit).
    rewrite Hsplit. simpl. rewrite orb_false_r.
    destruct piece as [|c piece]; [|done]. intros _. right.
    destruct (split_head_empty _ _ _ Hsplit) as [Hnil|Hrest]; [|done].
    rewrite Hnil in Htrim. done.
  - intros [Hnot|[rest Hrest]].
    + destruct (Js.falsy raw); [done|].
      destruct (Js.falsy (Js.trim raw)); [done|].
      rewrite (split_no_sep _ _ Hnot). simpl. by rewrite orb_true_r.
    + destruct (Js.falsy raw); [done|]. rewrite Hrest. reflexivity.
Qed.

(** [modelEquals] holds exactly for equal model references. *)
Theorem modelEquals_structural (a b : ModelRef) : modelEquals a b = true <-> a = b.
Proof.
  unfold modelEquals. rewrite andb_true_iff, !bool_decide_eq_true.
  destruct a, b. simpl. split; [intros [-> ->]; done|]. by intros [= -> ->].
Qed.

(** ** The model inferred from a history *)

Lemma scan_prefix (i : nat) (l extra : list MessageWithParts) :
  i <= length l ->
  lastUserModelFromMessages_from i (l ++ extra) = lastUserModelFromMessages_from i l.
Proof.
  induction i as [|i IH]; [done|]. intros Hi. simpl.
  rewrite lookup_app_l by lia. rewrite IH by lia. done.
Qed.

(** X10: a message added at the end of a history decides the inferred model
    when it is a user message that carries one, and leaves it as it was
    otherwise. *)
Theorem lastUserModelFromMessages_snoc (l : list MessageWithParts) (m : MessageWithParts) :
  lastUserModelFromMessages (l ++ [m]) =
  match modelFromUserMessage (info m) with
  | Some model => Some model
  | None => lastUserModelFromMessages l
  end.
Proof.
  unfold lastUserModelFromMessages. rewrite length_app. simpl.
  rewrite Nat.add_1_r. simpl.
  rewrite list_lookup_middle by done.
  destruct (modelFromUserMessage (info m)); [done|].
  by apply scan_prefix.
Qed.

(** ** Picking and inferring the model of a session *)

Lemma rememberModel_other (sessionID other : jsstring) (model : ModelRef) (st : Store) :
  other ≠ sessionID ->
  sessionModelById (rememberModel sessionID model st) !! other = sessionModelById st !! other
  /\ sessionModelOverrideById (rememberModel sessionID model st) !! other
     = sessionModelOverrideById st !! other.
Proof.
  intros Hne. unfold rememberModel, clearOverride. simpl. split.
  - by apply lookup_insert_ne.
  - destruct (sessionModelOverrideById st !! sessionID); [|done].
    by apply lookup_delete_ne.
Qed.

(** X11: a model picked for the selected session is what the resolver gives
    from then on, whatever the session's last-known model and history are; the
    overrides of the other sessions, the last-known models and the default
    model stay as they are. A model picked as the default replaces the default
    only, and is what the resolver gives when no session is selected. *)
Theorem applyModelSelection_effect (next : ModelRef) (st : Store) :
  (forall id,
      selectedSessionId st = Some id -> id ≠ [] ->
      selectedSessionModel (applyModelSelection target_session next st) = next
      /\ (forall other,
             other ≠ id ->
             sessionModelOverrideById (applyModelSelection target_session next st) !! other
             = sessionModelOverrideById st !! other)
      /\ sessionModelById (applyModelSelection target_session next st) = sessionModelById st
      /\ defaultModel (applyModelSelection target_session next st) = defaultModel st)
  /\ defaultModel (applyModelSelection target_default next st) = next
  /\ sessionModelOverrideById (applyModelSelection target_default next st)
     = sessionModelOverrideById st
  /\ sessionModelById (applyModelSelection target_default next st) = sessionModelById st
  /\ (selectedSessionId st = None ->
      selectedSessionModel (applyModelSelection target_default next st) = next).
Proof.
  split; [|split; [done|split; [done|split; [done|]]]].
  - intros id Hsel Hid. unfold applyModelSelection.
    rewrite Hsel, (falsy_false _ Hid). split; [|split; [|done]].
    + unfold selectedSessionModel. simpl. rewrite Hsel, (falsy_false _ Hid).
      by rewrite lookup_insert_eq.
    + intros other Hother. simpl. by apply lookup_insert_ne.
  - intros Hsel. unfold selectedSessionModel. simpl. by rewrite Hsel.
Qed.

Lemma applyModelSelection_effect_witness :
  selectedSessionModel (applyModelSelection target_session anthropic_claude scenario_store)
  = anthropic_claude.
Proof.
  destruct (applyModelSelection_effect anthropic_claude scenario_store) as [Hsession _].
  destruct (Hsession (Js.lit "s1")) as [Hmodel _]; [reflexivity|discriminate|].
  exact Hmodel.
Defined.

(** X12: when the history fetched by [selectSession] for a session holds a
    user message with a model, that model becomes the last-known model of the
    session and the override picked for it is dropped, so the resolver gives
    the model of the history while the session is selected; the models of the
    other sessions are not touched. *)
Theorem selectSession_infers_model (safeStringify : Thrown -> jsstring)
    (s : jsstring) (msgs : list MessageWithParts) (model : ModelRef) (st : Store) :
  lastUserModelFromMessages msgs = Some model ->
  exists st1,
    resume safeStringify (SelectSession_messages s)
      (MessagesResponse (Fulfilled (Data msgs))) st
    = Some (st1, Some (SelectSession_todo s))
    /\ sessionModelById st1 !! s = Some model
    /\ sessionModelOverrideById st1 !! s = None
    /\ (forall other,
           other ≠ s ->
           sessionModelById st1 !! other = sessionModelById st !! other
           /\ sessionModelOverrideById st1 !! other = sessionModelOverrideById st !! other)
    /\ (selectedSessionId st = Some s -> s ≠ [] -> selectedSessionModel st1 = model).
Proof.
  intros Hmodel. simpl. rewrite Hmodel. eexists. split; [reflexivity|].
  split; [apply rememberModel_known|]. split; [apply rememberModel_override|].
  split.
  - intros other Hother.
    destruct (rememberModel_other s other model (setMessages msgs st) Hother) as [-> ->].
    done.
  - intros Hsel Hs. unfold selectedSessionModel.
    rewrite rememberModel_selected.
    change (selectedSessionId (setMessages msgs st)) with (selectedSessionId st).
    rewrite Hsel, (falsy_false _ Hs).
    by rewrite rememberModel_override, rememberModel_known.
Qed.

Lemma selectSession_infers_model_witness :
  exists st1,
    resume sample_stringify (SelectSession_messages (Js.lit "s1"))
      (MessagesResponse (Fulfilled (Data
         [ {| info := sample_message "m1" "s1" user (Some anthropic_claude);
              parts := [] |} ])))
      scenario_store
    = Some (st1, Some (SelectSession_todo (Js.lit "s1")))
    /\ sessionModelOverrideById st1 !! Js.lit "s1" = None
    /\ selectedSessionModel st1 = anthropic_claude.
Proof.
  destruct (selectSession_infers_model sample_stringify (Js.lit "s1")
              [ {| info := sample_message "m1" "s1" user (Some anthropic_claude);
                   parts := [] |} ]
              anthropic_claude scenario_store)
    as (st1 & Hresume & _ & Hoverride & _ & Hmodel); [reflexivity|].
  exists st1. split; [exact Hresume|]. split; [exact Hoverride|].
  apply Hmodel; [reflexivity|discriminate].
Defined.

(** ** Refreshing the permissions again *)

(** X13: a refresh that gets the same list from the server as the refresh
    before it changes nothing, at whatever time it runs. *)
Theorem reconcilePermissions_idempotent (current : list PendingPermission)
    (listed : list ApiPermissionRequest) (now now' : Z) :
  reconcilePermissions (reconcilePermissions current listed now) listed now'
  = reconcilePermissions current listed now.
Proof.
  set (first := reconcilePermissions current listed now).
  assert (forall p, p ∈ listed ->
            exists old, byId first !! permission_id p = Some old
                        /\ receivedAt old
                           = match byId current !! permission_id p with
                             | Some held => receivedAt held
                             | None => now
                             end) as Hheld.
  { intros p Hp.
    destruct (byId first !! permission_id p) as [old|] eqn:Hold.
    - exists old. split; [done|].
      apply byId_Some in Hold as [Hin Hid].
      rewrite (reconcile_receivedAt _ _ _ _ Hin). by rewrite Hid.
    - apply byId_None in Hold. destruct Hold.
      unfold permission_ids, first, reconcilePermissions.
      rewrite map_map. simpl. apply list_elem_of_fmap. by exists p. }
  unfold reconcilePermissions at 1. fold first.
  unfold first at 2. unfold reconcilePermissions.
  apply map_ext_in. intros p Hp%list_elem_of_In.
  destruct (Hheld p Hp) as (old & -> & ->). done.
Qed.

(** ** What the health probe gives back *)

Lemma loop_returns_healthy (timeoutMs start : Z) (now : nat -> Z)
    (poll : nat -> Settled Health) (fuel k : nat) (lastError : option jsstring)
    (health : Health) :
  HealthProbe.loop timeoutMs start now poll fuel k lastError = Some (Return health) ->
  healthy health = true
  /\ exists j, k <= j < k + fuel
               /\ (now j - start < timeoutMs)%Z
               /\ unwrap_await (poll j) = Return health.
Proof.
  revert k lastError. induction fuel as [|fuel IH]; intros k lastError; [done|].
  simpl. destruct (Z.ltb_spec (now k - start) timeoutMs) as [Hcheck|_]; [|done].
  destruct (unwrap_await (poll k)) as [h|e] eqn:Hpoll.
  - destruct (healthy h) eqn:Hh.
    + intros [= <-]. split; [done|]. exists k. split; [lia|]. done.
    + intros Hrest. destruct (IH _ _ Hrest) as [Hok (j & Hj & Hrest')].
      split; [done|]. exists j. split; [lia|done].
  - intros Hrest. destruct (IH _ _ Hrest) as [Hok (j & Hj & Hrest')].
    split; [done|]. exists j. split; [lia|done].
Qed.

(** X14: a payload returned by the probe reports healthy, and it is the
    answer to an attempt that was started before the timeout. *)
Theorem waitForHealthy_returns_only_healthy (timeoutMs start : Z) (now : nat -> Z)
    (poll : nat -> Settled Health) (fuel : nat) (health : Health) :
  HealthProbe.waitForHealthy timeoutMs start now poll fuel = Some (Return health) ->
  healthy health = true
  /\ exists j, j < fuel
               /\ (now j - start < timeoutMs)%Z
               /\ unwrap_await (poll j) = Return health.
Proof.
  intros Hreturn. apply loop_returns_healthy in Hreturn as [Hok (j & Hj & Hrest)].
  split; [done|]. exists j. split; [lia|done].
Qed.

Lemma waitForHealthy_returns_only_healthy_witness :
  healthy healthy_1_2_3 = true
  /\ exists j, j < 4
               /\ (every_250ms j - 0 < 10000)%Z
               /\ unwrap_await (recovering_poll j) = Return healthy_1_2_3.
Proof.
  apply (waitForHealthy_returns_only_healthy 10000 0 every_250ms recovering_poll 4).
  reflexivity.
Defined.

Lemma loop_more_fuel (timeoutMs start : Z) (now : nat -> Z) (poll : nat -> Settled Health)
    (fuel extra k : nat) (lastError : option jsstring) (result : Outcome Health) :
  HealthProbe.loop timeoutMs start now poll fuel k lastError = Some result ->
  HealthProbe.loop timeoutMs start now poll (fuel + extra) k lastError = Some result.
Proof.
  revert k lastError. induction fuel as [|fuel IH]; intros k lastError; [done|].
  cbn [HealthProbe.loop Nat.add].
  destruct (now k - start <? timeoutMs)%Z; [|done].
  destruct (unwrap_await (poll k)) as [health|e]; [|by apply IH].
  destruct (healthy health); [done|]. by apply IH.
Qed.

(** X15: when the clock read by the loop condition advances by at least
    [step] milliseconds between two attempts, the probe settles, returning
    or throwing, and the loop condition is evaluated at most once more than
    [step] fits into the time left at the first check. *)
Theorem waitForHealthy_settles (timeoutMs start : Z) (now : nat -> Z)
    (poll : nat -> Settled Health) (step : Z) :
  (0 < step)%Z ->
  (forall j, (now j + step <= now (S j))%Z) ->
  exists result,
    forall checks, (timeoutMs - (now 0%nat - start) <= step * Z.of_nat checks)%Z ->
      HealthProbe.waitForHealthy timeoutMs start now poll (S checks) = Some result.
Proof.
  intros Hstep Hclock. unfold HealthProbe.waitForHealthy.
  set (enough := Z.to_nat (timeoutMs - (now 0 - start))).
  destruct (loop_total timeoutMs start now poll step enough 0 None Hclock)
    as [result Hresult]; [unfold enough; nia|].
  exists result. intros checks Hchecks.
  destruct (loop_total timeoutMs start now poll step checks 0 None Hclock Hchecks)
    as [other Hother].
  rewrite Hother. f_equal.
  pose proof (loop_more_fuel _ _ _ _ _ (S enough) _ _ _ Hother) as H1.
  pose proof (loop_more_fuel _ _ _ _ _ (S checks) _ _ _ Hresult) as H2.
  replace (S enough + S checks) with (S checks + S enough) in H2 by lia.
  congruence.
Qed.

Lemma waitForHealthy_settles_witness :
  exists result,
    forall checks, (1000 - (every_250ms 0%nat - 0) <= 250 * Z.of_nat checks)%Z ->
      HealthProbe.waitForHealthy 1000 0 every_250ms unhealthy_poll (S checks) = Some result.
Proof.
  apply (waitForHealthy_settles 1000 0 every_250ms unhealthy_poll 250).
  - lia.
  - intros j. unfold every_250ms. lia.
Defined.

(** [unwrap] hands over the data of a result that has some, and throws
    an [Error] whose message is never empty for a result that has none. *)
Theorem unwrap_outcome {T : Type} (result : FieldsResult T) :
  match result with
  | Data data => unwrap result = Return data
  | Failure _ =>
      exists message,
        unwrap result = Throw (ErrorObject (Js.lit "Error") message) /\ message ≠ []
  end.
Proof.
  destruct result as [data|e]; [done|]. simpl. eexists. split; [reflexivity|].
  destruct e as [name message|s|[stringified|] asString]; simpl;
    try (by destruct message); try (by destruct s); try (by destruct stringified); done.
Qed.

(** ** Reading the event stream *)

Lemma last_app_nonempty {A} (l l' : list A) (d : A) :
  l' ≠ [] -> List.last (l ++ l') d = List.last l' d.
Proof.
  intros Hl'. induction l as [|x l IH]; [done|].
  simpl. destruct (l ++ l') eqn:E; [|done].
  apply app_eq_nil in E as [_ ?]. done.
Qed.

Lemma split_app (sep : N) (x y : jsstring) :
  Js.split sep (x ++ y)
  = removelast (Js.split sep x) ++ Js.split sep (List.last (Js.split sep x) [] ++ y).
Proof.
  induction x as [|c x IH]; [done|].
  cbn [app Js.split]. rewrite IH.
  pose proof (split_nonempty sep x) as Hx.
  pose proof (split_nonempty sep (List.last (Js.split sep x) [] ++ y)) as Hy.
  destruct (N.eqb_spec c sep) as [->|Hne].
  - destruct (Js.split sep x) as [|p ps]; [done|]. done.
  - destruct (Js.split sep x) as [|p [|q ps]]; [done| |].
    + cbn [removelast List.last app Js.split].
      destruct (N.eqb_spec c sep) as [?|_]; [done|]. done.
    + cbn [removelast List.last app]. done.
Qed.

(** X16: the extension's read loop gives the same result whether a piece of
    the stream arrives in one read or cut in two at any place: a line is acted
    on once it is complete, whatever the reads were. *)
Theorem readLoop_chunk_boundaries (JSON_parse : jsstring -> option Json)
    (a b : jsstring) (reads : list Extension.ReadResult) (buffer : jsstring) (lv : Live) :
  Extension.readLoop JSON_parse
    (Extension.ReadChunk a :: Extension.ReadChunk b :: reads) buffer lv
  = Extension.readLoop JSON_parse (Extension.ReadChunk (a ++ b) :: reads) buffer lv.
Proof.
  cbn [Extension.readLoop].
  rewrite (app_assoc buffer a b), (split_app Js.newline (buffer ++ a) b).
  set (lines1 := Js.split Js.newline (buffer ++ a)).
  set (lines2 := Js.split Js.newline (List.last lines1 [] ++ b)).
  assert (lines2 ≠ []) as Hlines2 by apply split_nonempty.
  rewrite (last_app_nonempty _ _ _ Hlines2).
  rewrite (removelast_app _ Hlines2), fold_left_app. done.
Qed.

Lemma slice_last_length {A} (n : nat) (l : list A) :
  length (Extension.slice_last n l) <= n.
Proof. unfold Extension.slice_last. rewrite length_drop. lia. Qed.

Lemma onLine_log (JSON_parse : jsstring -> option Json) (lv : Live) (line : jsstring) :
  length (events lv) <= 51 ->
  length (events (Extension.onLine JSON_parse lv line)) <= 51.
Proof.
  intros Hlv. unfold Extension.onLine.
  destruct (negb _); [done|]. destruct (_ || _); [done|].
  destruct (JSON_parse _) as [parsed|]; [|done].
  destruct (normalizeEvent parsed); [|done].
  simpl. rewrite length_app. simpl.
  pose proof (slice_last_length 50 (events lv)). lia.
Qed.

Lemma onLines_log (JSON_parse : jsstring -> option Json) (lines : list jsstring) (lv : Live) :
  length (events lv) <= 51 ->
  length (events (fold_left (Extension.onLine JSON_parse) lines lv)) <= 51.
Proof.
  revert lv. induction lines as [|line lines IH]; intros lv Hlv; [done|].
  simpl. apply IH. by apply onLine_log.
Qed.

Lemma readLoop_log (JSON_parse : jsstring -> option Json)
    (reads : list Extension.ReadResult) (buffer : jsstring) (lv : Live) :
  length (events lv) <= 51 ->
  length (events (Extension.readLoop JSON_parse reads buffer lv)) <= 51.
Proof.
  revert buffer lv. induction reads as [|r reads IH]; intros buffer lv Hlv; [done|].
  destruct r as [decoded| |e]; simpl.
  - apply IH. by apply onLines_log.
  - done.
  - unfold Extension.onError. by destruct (Extension.isAbortError e).
Qed.

Lemma onRecords_log (developerMode : bool) (items : list Json) (lv : Live) :
  length (events lv) <= 150 ->
  length (events (fold_left (Desktop.onRecord developerMode) items lv)) <= 150.
Proof.
  revert lv. induction items as [|raw items IH]; intros lv Hlv; [done|].
  simpl. apply IH. unfold Desktop.onRecord.
  destruct (normalizeEvent raw) as [event|]; [|done].
  destruct developerMode.
  - simpl. rewrite length_take. lia.
  - by destruct (bool_decide _).
Qed.

(** X17: the log of observed events stays bounded: it never holds more than
    51 records in the extension and never more than 150 in the desktop client,
    however long the stream is. *)
Theorem event_log_bounded (JSON_parse : jsstring -> option Json) (developerMode : bool)
    (lv : Live) :
  (length (events lv) <= 51 ->
   forall sub, length (events (Extension.subscribe JSON_parse sub lv)) <= 51)
  /\ (length (events lv) <= 150 ->
      forall sub, length (events (Desktop.subscribe developerMode sub lv)) <= 150).
Proof.
  split.
  - intros Hlv [e| |reads]; simpl.
    + unfold Extension.onError. by destruct (Extension.isAbortError e).
    + done.
    + by apply readLoop_log.
  - intros Hlv [cancelled e|items ending]; simpl.
    + unfold Desktop.onError. destruct cancelled; [done|].
      by destruct (Js.includes _ _).
    + pose proof (onRecords_log developerMode items lv Hlv) as Hitems.
      destruct ending as [| | |cancelled e]; [done..|].
      unfold Desktop.onError. destruct cancelled; [done|].
      by destruct (Js.includes _ _).
Qed.

Lemma event_log_bounded_witness :
  length (events (Extension.subscribe parse_ping
                    (Extension.SubBody
                       [ Extension.ReadChunk (Js.lit "data: PING" ++ [Js.newline]) ])
                    idle_live)) <= 51
  /\ length (events (Desktop.subscribe true
                       (Desktop.SubStream [session_updated_record] Desktop.StreamDone)
                       idle_live)) <= 150.
Proof.
  destruct (event_log_bounded parse_ping true idle_live) as [Hextension Hdesktop].
  split.
  - apply Hextension. simpl. lia.
  - apply Hdesktop. simpl. lia.
Defined.

(** X18: a record is normalized only if it is an object, never an array or
    a primitive; a string [type] at the top level decides the record even when
    a [payload] is present; and a record wrapped in [payload] is normalized
    to what the bare record is normalized to. *)
Theorem normalizeEvent_shapes (raw : Json) :
  (forall event, normalizeEvent raw = Some event -> exists fields, raw = JObject fields)
  /\ (forall t,
         get (Js.lit "type") raw = Some (JString t) ->
         normalizeEvent raw
         = Some {| event_type := t; event_properties := get (Js.lit "properties") raw |})
  /\ (forall payload t,
         is_object raw = true ->
         (forall s, get (Js.lit "type") raw ≠ Some (JString s)) ->
         get (Js.lit "payload") raw = Some payload ->
         get (Js.lit "type") payload = Some (JString t) ->
         normalizeEvent raw = normalizeEvent payload).
Proof.
  split; [|split].
  - intros event. unfold normalizeEvent.
    destruct raw as [| | | |items|fields]; try done. intros _. by eexists.
  - intros t Htype. unfold normalizeEvent.
    destruct raw as [| | | |items|fields]; try done. simpl in *. by rewrite Htype.
  - intros payload t Hobject Hnot Hpayload Htype. unfold normalizeEvent.
    rewrite Hobject, Hpayload. simpl.
    assert (is_object payload = true) as Hpo.
    { destruct payload; try done. }
    rewrite Hpo, Htype. simpl.
    destruct (get (Js.lit "type") raw) as [[| | |s| |]|] eqn:Hraw; try done.
    by destruct (Hnot s).
Qed.

Lemma normalizeEvent_shapes_witness :
  normalizeEvent server_connected_record
  = normalizeEvent (JObject [(Js.lit "type", JString (Js.lit "server.connected"))]).
Proof.
  destruct (normalizeEvent_shapes server_connected_record) as (_ & _ & Hwrapped).
  apply (Hwrapped _ (Js.lit "server.connected")).
  - reflexivity.
  - intros s Hs. vm_compute in Hs. discriminate.
  - reflexivity.
  - reflexivity.
Defined.

(** ** Trimming and clamping text *)

Lemma dropWhile_split (p : N -> bool) (s : jsstring) :
  exists dropped, s = dropped ++ Js.dropWhile p s /\ Forall (fun c => p c = true) dropped.
Proof.
  induction s as [|c s IH].
  - by exists [].
  - simpl. destruct (p c) eqn:Hc.
    + destruct IH as (dropped & Heq & Hall).
      exists (c :: dropped). split; [by rewrite <- app_comm_cons, <- Heq|by constructor].
    + by exists [].
Qed.

Lemma dropWhile_no_leading_whitespace (s : jsstring) :
  Js.starts_with_whitespace (Js.dropWhile Js.is_whitespace s) = false.
Proof.
  induction s as [|c s IH]; [done|].
  simpl. by destruct (Js.is_whitespace c) eqn:Hc.
Qed.

Lemma trim_no_edge_whitespace (s : jsstring) :
  Js.starts_with_whitespace (Js.trim s) = false
  /\ Js.ends_with_whitespace (Js.trim s) = false.
Proof.
  unfold Js.trim, Js.trimEnd, Js.ends_with_whitespace. split.
  - pose proof (dropWhile_no_leading_whitespace s) as Hstart.
    fold (Js.trimStart s) in Hstart. set (t := Js.trimStart s) in *.
    destruct (dropWhile_split Js.is_whitespace (rev t)) as (dropped & Heq & _).
    apply (f_equal (@rev N)) in Heq. rewrite rev_involutive, rev_app_distr in Heq.
    destruct (rev (Js.dropWhile Js.is_whitespace (rev t))) as [|c kept]; [done|].
    rewrite Heq in Hstart. exact Hstart.
  - rewrite rev_involutive. apply dropWhile_no_leading_whitespace.
Qed.

Lemma trim_idempotent (s : jsstring) : Js.trim (Js.trim s) = Js.trim s.
Proof. destruct (trim_no_edge_whitespace s). by apply trim_fixed. Qed.

(** X19: a clamped text is never longer than [max] plus the fifteen code
    units of the note, starts with the same [max] code units as the text, is
    the text itself when that has at most [max] code units, and clamping it
    again changes nothing. *)
Theorem clampText_bounds (text : jsstring) (max : nat) :
  length (clampText text max) <= max + 15
  /\ take max (clampText text max) = take max text
  /\ (length text <= max -> clampText text max = text)
  /\ clampText (clampText text max) max = clampText text max.
Proof.
  unfold clampText.
  destruct (Nat.leb_spec (length text) max) as [Hshort|Hlong].
  - split; [lia|]. split; [done|]. split; [done|].
    by rewrite (proj2 (Nat.leb_le _ _) Hshort).
  - assert (length (take max text) = max) as Htake by (rewrite length_take; lia).
    split; [|split; [|split]].
    + rewrite length_app, Htake. simpl. lia.
    + rewrite take_app_le by lia. rewrite take_take. f_equal. lia.
    + lia.
    + assert ((length (take max text ++ truncated_suffix) <=? max) = false) as ->.
      { apply Nat.leb_gt. rewrite length_app, Htake. simpl. lia. }
      rewrite take_app_le by lia. rewrite take_take. do 2 f_equal. lia.
Qed.

Lemma clampText_bounds_witness :
  clampText (Js.lit "hello") 800 = Js.lit "hello".
Proof.
  destruct (clampText_bounds (Js.lit "hello") 800) as (_ & _ & Hshort & _).
  apply Hshort. simpl. lia.
Defined.

(** ** The plugin list *)

Lemma normalized_entry (value : option Json) (entry : jsstring) :
  entry ∈ Plugins.normalizePluginList value ->
  entry ≠ [] /\ Js.trim entry = entry.
Proof.
  unfold Plugins.normalizePluginList.
  destruct value as [value|]; [|by intros ?%elem_of_nil].
  destruct (negb (truthy value)); [by intros ?%elem_of_nil|].
  destruct value as [| | |s|items|fields]; try (by intros ?%elem_of_nil).
  - destruct (Js.falsy (Js.trim s)) eqn:Hs; [by intros ?%elem_of_nil|].
    intros ->%list_elem_of_singleton. split; [by destruct (Js.trim s)|].
    apply trim_idempotent.
  - intros [Hlen Hin]%list_elem_of_filter.
    split; [destruct entry; [simpl in Hlen; lia|done]|].
    apply list_elem_of_fmap in Hin as (item & -> & _).
    destruct item; try done. apply trim_idempotent.
Qed.

(** X20: every entry of a normalized plugin list is non-empty and carries no
    whitespace at either end, whatever the [plugin] field of the configuration
    holds; and a normalized list written back as an array of strings is
    normalized to itself. *)
Theorem normalizePluginList_entries (value : option Json) :
  (forall entry,
      entry ∈ Plugins.normalizePluginList value ->
      entry ≠ []
      /\ Js.starts_with_whitespace entry = false
      /\ Js.ends_with_whitespace entry = false)
  /\ Plugins.normalizePluginList
       (Some (JArray (map JString (Plugins.normalizePluginList value))))
     = Plugins.normalizePluginList value.
Proof.
  split.
  - intros entry Hentry. destruct (normalized_entry _ _ Hentry) as [Hne Htrim].
    split; [done|]. rewrite <- Htrim. apply trim_no_edge_whitespace.
  - assert (forall l : list jsstring,
              (forall entry, entry ∈ l -> (entry ≠ []) /\ Js.trim entry = entry) ->
              Plugins.normalizePluginList (Some (JArray (map JString l))) = l) as Hfixed.
    { intros l Hl. unfold Plugins.normalizePluginList. simpl. rewrite map_map. simpl.
      induction l as [|entry l IH]; [done|].
      destruct (Hl entry) as [Hne Htrim]; [by apply elem_of_cons; left|].
      cbn [map]. rewrite filter_cons, Htrim.
      destruct (decide (0 < length entry)) as [_|Hzero].
      - f_equal. apply IH. intros e He. apply Hl. apply elem_of_cons. by right.
      - destruct entry; [done|]. simpl in Hzero. lia. }
    apply Hfixed. intros entry. apply normalized_entry.
Qed.

Lemma normalizePluginList_entries_witness :
  Plugins.normalizePluginList
    (Some (JArray [JString (Js.lit " opencode-scheduler "); JNumber 3; JString (Js.lit "  ")]))
  = [Js.lit "opencode-scheduler"]
  /\ Js.lit "opencode-scheduler" ≠ []
  /\ Js.starts_with_whitespace (Js.lit "opencode-scheduler") = false
  /\ Js.ends_with_whitespace (Js.lit "opencode-scheduler") = false.
Proof.
  split; [reflexivity|].
  destruct (normalizePluginList_entries
              (Some (JArray [JString (Js.lit " opencode-scheduler "); JNumber 3;
                             JString (Js.lit "  ")]))) as [Hentries _].
  apply Hentries. apply list_elem_of_here.
Defined.

Lemma indexOf_absent (c : N) (s : jsstring) : c ∉ s -> Plugins.indexOf c s = None.
Proof.
  intros Hnot. apply findIndex_None. apply Forall_forall.
  intros x Hx. apply N.eqb_neq. intros ->. done.
Qed.

Lemma indexOf_first (c : N) (before after : jsstring) :
  c ∉ before -> Plugins.indexOf c (before ++ c :: after) = Some (length before).
Proof.
  unfold Plugins.indexOf. induction before as [|x before IH]; simpl; intros Hnot.
  - by rewrite N.eqb_refl.
  - apply not_elem_of_cons in Hnot as [Hx Hbefore].
    destruct (N.eqb_spec x c) as [?|_]; [congruence|]. by rewrite (IH Hbefore).
Qed.

Lemma looksLikeVersion_nonempty (suffix : jsstring) :
  Plugins.looksLikeVersion suffix = true -> suffix ≠ [].
Proof. by destruct suffix. Qed.

Lemma ends_with_whitespace_app (s t : jsstring) :
  t ≠ [] -> Js.ends_with_whitespace (s ++ t) = Js.ends_with_whitespace t.
Proof.
  intros Ht. unfold Js.ends_with_whitespace. rewrite rev_app_distr.
  destruct (rev t) as [|c r] eqn:Hrev; [|done].
  apply (f_equal (@rev N)) in Hrev. rewrite rev_involutive in Hrev. done.
Qed.

Lemma drop_past_separator (before after : jsstring) (c : N) :
  drop (length before + 1) (before ++ c :: after) = after.
Proof. induction before as [|x before IH]; [done|]. exact IH. Qed.



(** X22: a scoped plugin, an at sign, a scope, a slash and a package name,
    followed by an at sign and something that looks like a version is stripped
    to the part before that at sign; with anything else after it the text is
    kept whole. The scope holds no slash, the package name no at sign, and the
    text ends with no whitespace. *)
Theorem stripPluginVersion_scoped (scope package version : jsstring) :
  Js.slash ∉ scope ->
  Plugins.at_sign ∉ package ->
  Js.ends_with_whitespace version = false ->
  Plugins.stripPluginVersion
    (Plugins.at_sign :: scope ++ Js.slash :: package ++ Plugins.at_sign :: version)
  = if Plugins.looksLikeVersion version
    then Plugins.at_sign :: scope ++ Js.slash :: package
    else Plugins.at_sign :: scope ++ Js.slash :: package ++ Plugins.at_sign :: version.
Proof.
  intros Hslash Hat Hend.
  set (head := Plugins.at_sign :: scope).
  set (name := head ++ Js.slash :: package).
  assert (Plugins.at_sign :: scope ++ Js.slash :: package ++ Plugins.at_sign :: version
          = name ++ Plugins.at_sign :: version) as Hspec.
  { unfold name, head. by rewrite <- !app_comm_cons, <- app_assoc. }
  assert (Plugins.at_sign :: scope ++ Js.slash :: package = name) as Hname by done.
  rewrite Hspec, Hname.
  assert (Js.trim (name ++ Plugins.at_sign :: version) = name ++ Plugins.at_sign :: version)
    as Htrim.
  { apply trim_fixed; [done|].
    rewrite ends_with_whitespace_app by done.
    destruct version as [|c version]; [done|].
    change (Plugins.at_sign :: c :: version) with ([Plugins.at_sign] ++ c :: version).
    by rewrite ends_with_whitespace_app. }
  unfold Plugins.stripPluginVersion. rewrite Htrim.
  change (Js.falsy (name ++ Plugins.at_sign :: version)) with false.
  change (Js.startsWith [Plugins.at_sign] (name ++ Plugins.at_sign :: version)) with true.
  cbn [negb].
  assert (Plugins.indexOf Js.slash (name ++ Plugins.at_sign :: version)
          = Some (length head)) as ->.
  { unfold name. rewrite <- app_assoc. apply indexOf_first.
    unfold head. apply not_elem_of_cons. split; [done|exact Hslash]. }
  unfold Plugins.indexOfFrom.
  assert (drop (length head + 1) (name ++ Plugins.at_sign :: version)
          = package ++ Plugins.at_sign :: version) as ->.
  { unfold name. rewrite <- app_assoc. apply drop_past_separator. }
  rewrite (indexOf_first _ _ _ Hat). cbn [fmap option_fmap option_map].
  assert (length head + 1 + length package = length name) as ->.
  { unfold name. rewrite length_app. simpl. lia. }
  by rewrite drop_past_separator, take_app_length.
Qed.

Lemma stripPluginVersion_scoped_witness :
  Plugins.stripPluginVersion
    (Plugins.at_sign :: Js.lit "different-ai" ++ Js.slash :: Js.lit "opencode-browser"
       ++ Plugins.at_sign :: Js.lit "Latest")
  = Plugins.at_sign :: Js.lit "different-ai" ++ Js.slash :: Js.lit "opencode-browser".
Proof.
  apply (stripPluginVersion_scoped (Js.lit "different-ai") (Js.lit "opencode-browser")
           (Js.lit "Latest")).
  - apply (bool_decide_eq_false_1 _). vm_compute. reflexivity.
  - apply (bool_decide_eq_false_1 _). vm_compute. reflexivity.
  - reflexivity.
Defined.

(** The name stripped from a text with a blank before the at sign ends with
    that blank. *)
Example stripPluginVersion_keeps_inner_blank :
  Plugins.stripPluginVersion (Js.lit "pkg @1") = Js.lit "pkg ".
Proof. reflexivity. Qed.

Lemma indexOf_position (c : N) (s : jsstring) (i : nat) :
  Plugins.indexOf c s = Some i -> s !! i = Some c.
Proof.
  intros Hi. apply findIndex_Some in Hi as (x & Hx & Heq & _).
  apply N.eqb_eq in Heq. by subst.
Qed.

(** X23: what [stripPluginVersion] returns is always a beginning of the
    trimmed text, and it is empty only for a blank text; a text without an at
    sign is returned trimmed. *)
Theorem stripPluginVersion_prefix (spec : jsstring) :
  (exists rest, Js.trim spec = Plugins.stripPluginVersion spec ++ rest)
  /\ (Plugins.stripPluginVersion spec = [] <-> Js.trim spec = [])
  /\ (Plugins.at_sign ∉ Js.trim spec -> Plugins.stripPluginVersion spec = Js.trim spec).
Proof.
  unfold Plugins.stripPluginVersion.
  set (trimmed := Js.trim spec).
  destruct trimmed as [|c trimmed'] eqn:Htrimmed.
  { simpl. split; [by exists []|]. split; [done|done]. }
  cbn [Js.falsy].
  assert (forall atIndex,
            0 < atIndex ->
            (exists rest, c :: trimmed' = take atIndex (c :: trimmed') ++ rest)
            /\ take atIndex (c :: trimmed') ≠ []) as Htake.
  { intros atIndex Hpos. split.
    - exists (drop atIndex (c :: trimmed')). by rewrite take_drop.
    - destruct atIndex; [lia|done]. }
  destruct (Js.startsWith [Plugins.at_sign] (c :: trimmed')) eqn:Hscoped.
  - split; [|split].
    + destruct (Plugins.indexOf Js.slash (c :: trimmed')) as [slashIndex|]; [|by (exists []; rewrite app_nil_r)].
      unfold Plugins.indexOfFrom.
      destruct (Plugins.indexOf Plugins.at_sign _) as [i|]; [|by (exists []; rewrite app_nil_r)].
      cbn [fmap option_fmap option_map]. destruct (Plugins.looksLikeVersion _); [|by (exists []; rewrite app_nil_r)].
      apply Htake. lia.
    + split; [|done].
      destruct (Plugins.indexOf Js.slash (c :: trimmed')) as [slashIndex|]; [|done].
      unfold Plugins.indexOfFrom.
      destruct (Plugins.indexOf Plugins.at_sign _) as [i|]; [|done].
      cbn [fmap option_fmap option_map]. destruct (Plugins.looksLikeVersion _); [|done].
      intros Hempty. destruct (Htake (slashIndex + 1 + i)) as [_ Hne]; [lia|done].
    + intros Hnot.
      change (Js.startsWith [Plugins.at_sign] (c :: trimmed'))
        with ((Plugins.at_sign =? c)%N && true) in Hscoped.
      apply andb_true_iff in Hscoped as [Hc _].
      apply N.eqb_eq in Hc. destruct Hnot. apply elem_of_cons. by left.
  - assert (forall atIndex, Plugins.indexOf Plugins.at_sign (c :: trimmed') = Some atIndex ->
                            0 < atIndex) as Hpos.
    { intros atIndex Hat. destruct atIndex; [|lia].
      apply indexOf_position in Hat. simpl in Hat. injection Hat as ->.
      change (Js.startsWith [Plugins.at_sign] (Plugins.at_sign :: trimmed'))
        with ((Plugins.at_sign =? Plugins.at_sign)%N && true) in Hscoped.
      by rewrite N.eqb_refl in Hscoped. }
    split; [|split].
    + destruct (Plugins.indexOf Plugins.at_sign (c :: trimmed')) as [atIndex|] eqn:Hat;
        [|by (exists []; rewrite app_nil_r)].
      destruct (Plugins.looksLikeVersion _); [|by (exists []; rewrite app_nil_r)].
      apply Htake. by apply Hpos.
    + split; [|done].
      destruct (Plugins.indexOf Plugins.at_sign (c :: trimmed')) as [atIndex|] eqn:Hat;
        [|done].
      destruct (Plugins.looksLikeVersion _); [|done].
      intros Hempty. destruct (Htake atIndex) as [_ Hne]; [by apply Hpos|done].
    + intros Hnot. by rewrite (indexOf_absent _ _ Hnot).
Qed.

Lemma stripPluginVersion_prefix_witness :
  Plugins.stripPluginVersion (Js.lit " opencode-scheduler ")
  = Js.trim (Js.lit " opencode-scheduler ").
Proof.
  destruct (stripPluginVersion_prefix (Js.lit " opencode-scheduler ")) as (_ & _ & Hbare).
  apply Hbare. apply (bool_decide_eq_false_1 _). vm_compute. reflexivity.
Defined.

(** ** Which plugins count as installed *)

Lemma pluginNamesLower_members (toLowerCase : jsstring -> jsstring)
    (pluginList : list jsstring) (name : jsstring) :
  name ∈ Plugins.pluginNamesLower toLowerCase pluginList <->
  exists entry,
    entry ∈ pluginList
    /\ (name = toLowerCase entry
        \/ (name = toLowerCase (Plugins.stripPluginVersion entry) /\ name ≠ [])).
Proof.
  unfold Plugins.pluginNamesLower. rewrite list_elem_of_In, in_flat_map. split.
  - intros (entry & Hentry & Hname). exists entry.
    rewrite <- list_elem_of_In in Hentry. split; [done|].
    rewrite <- list_elem_of_In in Hname.
    destruct (Js.falsy (toLowerCase (Plugins.stripPluginVersion entry))) eqn:Hfalsy; simpl in Hname.
    + apply list_elem_of_singleton in Hname. by left.
    + destruct (bool_decide _); simpl in Hname.
      * apply list_elem_of_singleton in Hname. by left.
      * apply elem_of_cons in Hname as [->|Hname]; [by left|].
        apply list_elem_of_singleton in Hname. right. split; [done|].
        subst. by destruct (toLowerCase (Plugins.stripPluginVersion entry)).
  - intros (entry & Hentry & Hname). exists entry.
    rewrite <- !list_elem_of_In. split; [done|].
    destruct Hname as [->|[-> Hne]].
    + destruct (_ && _); apply elem_of_cons; by left.
    + rewrite (falsy_false _ Hne). simpl. case_bool_decide as Hsame; simpl.
      * rewrite Hsame. by apply list_elem_of_singleton.
      * apply elem_of_cons. right. by apply list_elem_of_singleton.
Qed.

(** X24: a plugin counts as installed exactly when the lower-cased name, or
    one of its lower-cased aliases, is the lower-cased text of a listed entry
    or the non-empty lower-cased name stripped from one; so every listed
    entry counts as installed under its own text, with or without a
    version. *)
Theorem isPluginInstalled_spec (toLowerCase : jsstring -> jsstring)
    (pluginList : list jsstring) (pluginName : jsstring) (aliases : list jsstring) :
  (Plugins.isPluginInstalled toLowerCase pluginList pluginName aliases = true <->
   exists candidate entry,
     candidate ∈ pluginName :: aliases
     /\ entry ∈ pluginList
     /\ (toLowerCase candidate = toLowerCase entry
         \/ (toLowerCase candidate = toLowerCase (Plugins.stripPluginVersion entry)
             /\ toLowerCase candidate ≠ [])))
  /\ (pluginName ∈ pluginList ->
      Plugins.isPluginInstalled toLowerCase pluginList pluginName aliases = true).
Proof.
  assert (Plugins.isPluginInstalled toLowerCase pluginList pluginName aliases = true <->
          exists candidate entry,
            candidate ∈ pluginName :: aliases
            /\ entry ∈ pluginList
            /\ (toLowerCase candidate = toLowerCase entry
                \/ (toLowerCase candidate = toLowerCase (Plugins.stripPluginVersion entry)
                    /\ toLowerCase candidate ≠ []))) as Hiff.
  { unfold Plugins.isPluginInstalled. rewrite existsb_exists. split.
    - intros (candidate & Hcandidate & Hmember).
      apply bool_decide_eq_true in Hmember.
      apply pluginNamesLower_members in Hmember as (entry & Hentry & Hname).
      exists candidate, entry. by rewrite list_elem_of_In.
    - intros (candidate & entry & Hcandidate & Hentry & Hname).
      exists candidate. rewrite <- list_elem_of_In. split; [done|].
      apply bool_decide_eq_true. apply pluginNamesLower_members. by exists entry. }
  split; [exact Hiff|].
  intros Hlisted. apply Hiff. exists pluginName, pluginName.
  split; [by apply elem_of_cons; left|]. split; [done|]. by left.
Qed.

Lemma isPluginInstalled_spec_witness :
  Plugins.isPluginInstalled Js.toLowerCase
    [Js.lit "opencode-scheduler"] (Js.lit "opencode-scheduler") []
  = true.
Proof.
  destruct (isPluginInstalled_spec Js.toLowerCase
              [Js.lit "opencode-scheduler"] (Js.lit "opencode-scheduler") [])
    as [_ Hlisted].
  apply Hlisted. apply list_elem_of_here.
Defined.

(** ** The authorized folders *)

(** X25: [addAuthorizedDir] keeps the folders pairwise distinct, adds
    nothing but the trimmed, non-blank input and only at the end, empties the
    input field exactly when the input is not blank, and adding the same input
    a second time changes nothing. *)
Theorem addAuthorizedDir_spec (input : jsstring) (current : list jsstring) :
  (NoDup current -> NoDup (Folders.addAuthorizedDir input current).1)
  /\ (exists added,
         (Folders.addAuthorizedDir input current).1 = current ++ added
         /\ forall dir, dir ∈ added ->
                        dir = Js.trim input /\ dir ≠ [] /\ (dir ∉ current))
  /\ (Folders.addAuthorizedDir input current).2
     = (if Js.falsy (Js.trim input) then input else [])
  /\ (Folders.addAuthorizedDir input (Folders.addAuthorizedDir input current).1).1
     = (Folders.addAuthorizedDir input current).1.
Proof.
  unfold Folders.addAuthorizedDir.
  destruct (Js.falsy (Js.trim input)) eqn:Hblank.
  - simpl. split; [done|]. split; [|done].
    exists []. rewrite app_nil_r. split; [done|]. by intros dir ?%elem_of_nil.
  - simpl. case_bool_decide as Hin.
    + split; [done|]. split; [|split; [done|]].
      * exists []. rewrite app_nil_r. split; [done|]. by intros dir ?%elem_of_nil.
      * by rewrite bool_decide_eq_true_2.
    + split; [by intros Hnd; apply NoDup_snoc_fresh|]. split; [|split; [done|]].
      * exists [Js.trim input]. split; [done|].
        intros dir ->%list_elem_of_singleton.
        split; [done|]. split; [by destruct (Js.trim input)|done].
      * rewrite bool_decide_eq_true_2; [done|].
        apply elem_of_app. right. by apply list_elem_of_singleton.
Qed.

Lemma addAuthorizedDir_spec_witness :
  NoDup (Folders.addAuthorizedDir (Js.lit " /home/me/work ") [Js.lit "/tmp"]).1.
Proof.
  destruct (addAuthorizedDir_spec (Js.lit " /home/me/work ") [Js.lit "/tmp"]) as [Hnd _].
  apply Hnd. apply NoDup_singleton.
Defined.

Lemma filter_index_past {A} (target i : nat) (l : list A) :
  target < i -> Folders.filter_index (fun j => negb (j =? target)) i l = l.
Proof.
  revert i. induction l as [|x l IH]; intros i Hlt; [done|].
  simpl. destruct (Nat.eqb_spec i target) as [?|_]; [lia|].
  simpl. by rewrite IH by lia.
Qed.

Lemma filter_index_delete {A} (target i index : nat) (l : list A) :
  target = i + index ->
  Folders.filter_index (fun j => negb (j =? target)) i l = delete index l.
Proof.
  revert i index. induction l as [|x l IH]; intros i index Htarget; [done|].
  simpl. destruct index as [|index].
  - destruct (Nat.eqb_spec i target) as [_|?]; [|lia]. simpl.
    apply filter_index_past. lia.
  - destruct (Nat.eqb_spec i target) as [?|_]; [lia|]. simpl.
    f_equal. apply IH. lia.
Qed.

(** [removeAuthorizedDir] drops the folder at the given place and keeps
    all others in order; a place past the end drops nothing; and removing the
    folder that [addAuthorizedDir] has just put at the end gives back the
    list. *)
Theorem removeAuthorizedDir_spec (index : nat) (current : list jsstring) :
  Folders.removeAuthorizedDir index current = take index current ++ drop (S index) current
  /\ (length current <= index -> Folders.removeAuthorizedDir index current = current)
  /\ (forall input,
         Js.trim input ≠ [] -> Js.trim input ∉ current ->
         Folders.removeAuthorizedDir (length current)
           (Folders.addAuthorizedDir input current).1
         = current).
Proof.
  assert (forall l : list jsstring,
             Folders.removeAuthorizedDir index l = take index l ++ drop (S index) l) as Hdelete.
  { intros l. unfold Folders.removeAuthorizedDir.
    rewrite (filter_index_delete index 0 index) by done.
    apply delete_take_drop. }
  split; [apply Hdelete|]. split.
  - intros Hpast. rewrite Hdelete.
    rewrite take_ge by lia. rewrite drop_ge by lia. by rewrite app_nil_r.
  - intros input Hne Hnew. unfold Folders.addAuthorizedDir.
    rewrite (falsy_false _ Hne). simpl. rewrite bool_decide_eq_false_2 by done.
    unfold Folders.removeAuthorizedDir.
    rewrite (filter_index_delete (length current) 0 (length current)) by done.
    rewrite delete_take_drop, take_app_length.
    rewrite drop_ge by (rewrite length_app; simpl; lia). by rewrite app_nil_r.
Qed.

Lemma removeAuthorizedDir_spec_witness :
  Folders.removeAuthorizedDir 1
    (Folders.addAuthorizedDir (Js.lit " /home/me/work ") [Js.lit "/tmp"]).1
  = [Js.lit "/tmp"].
Proof.
  destruct (removeAuthorizedDir_spec 1 [Js.lit "/tmp"]) as (_ & _ & Hundo).
  apply (Hundo (Js.lit " /home/me/work ")).
  - discriminate.
  - apply (bool_decide_eq_false_1 _). vm_compute. reflexivity.
Defined.

(** ** The remembered mode *)

Lemma mode_name_injective (a b : ModePreference.Mode) :
  ModePreference.mode_name a = ModePreference.mode_name b -> a = b.
Proof. destruct a, b; done. Qed.

Lemma modePref_keys_differ : ModePreference.legacy_modePref ≠ ModePreference.modePref.
Proof. intros Heq. vm_compute in Heq. discriminate. Qed.

Lemma readModePreference_stored (ls : ModePreference.LocalStorage) (m : ModePreference.Mode) :
  ModePreference.accessible ls = true ->
  ModePreference.items ls !! ModePreference.modePref = Some (ModePreference.mode_name m) ->
  ModePreference.readModePreference ls = (Some m, ls).
Proof.
  intros Haccess Hstored. unfold ModePreference.readModePreference.
  rewrite Haccess, Hstored. cbn [negb].
  assert (forall m', ModePreference.mode_name m = ModePreference.mode_name m' ->
            match ModePreference.setItem ModePreference.modePref
                    (ModePreference.mode_name m') ls with
            | Some ls' => (Some m', ls')
            | None => (Some m', ls)
            end = (Some m, ls)) as Hmigrate.
  { intros m' Hm'. apply mode_name_injective in Hm' as <-.
    unfold ModePreference.setItem. destruct (_ && _); [|done].
    rewrite (insert_id _ _ _ Hstored). by destruct ls. }
  destruct (bool_decide (ModePreference.mode_name m = Js.lit "host")) eqn:Hhost.
  - apply bool_decide_eq_true in Hhost. by apply (Hmigrate ModePreference.host).
  - destruct (bool_decide (ModePreference.mode_name m = Js.lit "client")) eqn:Hclient.
    + apply bool_decide_eq_true in Hclient. by apply (Hmigrate ModePreference.client).
    + apply bool_decide_eq_false in Hhost, Hclient. by destruct m.
Qed.

(** X26: a mode written to a storage that can be reached and has room for
    it is the mode read back, and that reading leaves the storage as it is;
    after the preference is cleared nothing is read, whatever the storage. *)
Theorem modePreference_round_trip (ls : ModePreference.LocalStorage)
    (m : ModePreference.Mode) :
  (ModePreference.accessible ls = true ->
   ModePreference.accepts ls
     (<[ModePreference.modePref := ModePreference.mode_name m]> (ModePreference.items ls))
   = true ->
   ModePreference.readModePreference (ModePreference.writeModePreference m ls)
   = (Some m, ModePreference.writeModePreference m ls))
  /\ (ModePreference.readModePreference (ModePreference.clearModePreference ls)).1 = None.
Proof.
  split.
  - intros Haccess Hroom.
    assert (ModePreference.accessible (ModePreference.writeModePreference m ls) = true
            /\ ModePreference.items (ModePreference.writeModePreference m ls)
               !! ModePreference.modePref = Some (ModePreference.mode_name m))
      as [Haccess' Hstored].
    { unfold ModePreference.writeModePreference, ModePreference.setItem.
      rewrite Haccess, Hroom. simpl. rewrite Haccess. simpl.
      destruct (ModePreference.accepts ls
                  (<[ModePreference.legacy_modePref := _]> _)); simpl.
      - split; [done|].
        rewrite lookup_insert_ne by apply modePref_keys_differ. apply lookup_insert_eq.
      - split; [done|]. apply lookup_insert_eq. }
    by apply readModePreference_stored.
  - unfold ModePreference.clearModePreference, ModePreference.readModePreference.
    destruct (ModePreference.accessible ls) eqn:Haccess; simpl; rewrite Haccess; simpl; [|done].
    rewrite lookup_delete_ne by apply modePref_keys_differ.
    rewrite lookup_delete_eq.
    rewrite lookup_delete_eq. done.
Qed.

Lemma modePreference_round_trip_witness :
  ModePreference.readModePreference
    (ModePreference.writeModePreference ModePreference.host
       (ModePreference.mkLocalStorage ∅ true (fun _ => true)))
  = (Some ModePreference.host,
     ModePreference.writeModePreference ModePreference.host
       (ModePreference.mkLocalStorage ∅ true (fun _ => true))).
Proof.
  destruct (modePreference_round_trip
              (ModePreference.mkLocalStorage ∅ true (fun _ => true)) ModePreference.host)
    as [Hread _].
  apply Hread; reflexivity.
Defined.

(** ** The reconcilers *)

Lemma is_selected_eq (st : Store) (sessionID : jsstring) :
  is_selected st sessionID = true ->
  selectedSessionId st = Some sessionID /\ sessionID ≠ [].
Proof.
  unfold is_selected. destruct (selectedSessionId st) as [id|]; [|done].
  intros [Hid Heq]%andb_true_iff. apply bool_decide_eq_true in Heq. subst id.
  split; [done|]. intros ->. done.
Qed.

Lemma is_selected_rememberModel (sessionID other : jsstring) (model : ModelRef)
    (st : Store) :
  is_selected (rememberModel sessionID model st) other = is_selected st other.
Proof. done. Qed.

(** X27: the desktop client changes the transcript only on an event about the
    selected session: with no session selected, or on an event that is about
    another session or is no transcript event, the messages stay as they
    are. *)
Theorem desktop_transcript_follows_selection (asSession : Json -> Session)
    (asMessage : Json -> Message) (asPart : Json -> Part)
    (asTodos : list Json -> list TodoItem) (event : OpencodeEvent) (st : Store) :
  selectedSessionId st = None
  \/ DesktopReconciler.transcript_session asMessage asPart event ≠ selectedSessionId st ->
  messages (DesktopReconciler.dispatch asSession asMessage asPart asTodos event st)
  = messages st.
Proof.
  intros Hother.
  assert (forall sessionID, is_selected st sessionID = true ->
            DesktopReconciler.transcript_session asMessage asPart event = Some sessionID ->
            False) as Hno.
  { intros sessionID [Hsel _]%is_selected_eq Hev.
    destruct Hother as [Hnone|Hne]; congruence. }
  unfold DesktopReconciler.dispatch, DesktopReconciler.transcript_session in *.
  destruct (is_type event "session.updated" || is_type event "session.created").
  { unfold DesktopReconciler.onSessionUpserted.
    destruct (properties_object event); [|done]. by destruct (get_object _ _). }
  destruct (is_type event "session.deleted").
  { unfold DesktopReconciler.onSessionDeleted.
    destruct (properties_object event) as [record|]; [|done].
    destruct (get _ record) as [info|]; [|done].
    destruct (get _ info) as [[]|]; try done. by destruct (Js.falsy _). }
  destruct (is_type event "message.updated").
  { unfold DesktopReconciler.onMessageUpdated.
    destruct (properties_object event) as [record|]; [|done].
    destruct (get_object _ record) as [raw|]; [|done]. simpl in Hno.
    destruct (modelFromUserMessage (asMessage raw)) as [model|].
    - rewrite is_selected_rememberModel.
      destruct (is_selected st _) eqn:Hsel; [|done].
      exfalso. by eapply Hno.
    - destruct (is_selected st _) eqn:Hsel; [|done].
      exfalso. by eapply Hno. }
  destruct (is_type event "message.removed").
  { unfold DesktopReconciler.onMessageRemoved.
    destruct (properties_object event) as [record|]; [|done].
    destruct (get_string (Js.lit "sessionID") record) as [sessionID|]; [|done].
    destruct (get_string (Js.lit "messageID") record); [|done].
    destruct (is_selected st _) eqn:Hsel; [|done].
    exfalso. by eapply Hno. }
  destruct (is_type event "message.part.updated").
  { unfold DesktopReconciler.onPartUpdated.
    destruct (properties_object event) as [record|]; [|done].
    destruct (get_object _ record) as [raw|]; [|done]. simpl in Hno.
    destruct (is_selected st _) eqn:Hsel; [|done].
    exfalso. by eapply Hno. }
  destruct (is_type event "message.part.removed").
  { unfold DesktopReconciler.onPartRemoved.
    destruct (properties_object event) as [record|]; [|done].
    destruct (get_string (Js.lit "sessionID") record) as [sessionID|]; [|done].
    destruct (get_string (Js.lit "messageID") record); [|done].
    destruct (get_string (Js.lit "partID") record); [|done].
    destruct (is_selected st _) eqn:Hsel; [|done].
    exfalso. by eapply Hno. }
  destruct (is_type event "todo.updated"); [|done].
  unfold DesktopReconciler.onTodoUpdated.
  destruct (properties_object event) as [record|]; [|done].
  destruct (get_string _ record); [|done].
  destruct (get _ record) as [[]|]; try done. by destruct (is_selected st _).
Qed.

Lemma desktop_transcript_follows_selection_witness :
  messages (DesktopReconciler.dispatch view_session view_message view_part view_todos
              (event_of "message.updated" [prop "info" (message_record "m9" "s2" "assistant")])
              transcript_store)
  = messages transcript_store.
Proof.
  apply desktop_transcript_follows_selection.
  right. intros Heq. vm_compute in Heq. discriminate.
Defined.

Lemma filter_ids_NoDup {A} (f : A -> jsstring) (P : A -> Prop)
    `{!forall x, Decision (P x)} (l : list A) :
  NoDup (map f l) -> NoDup (map f (filter P l)).
Proof.
  intros Hnd. eapply sublist_NoDup; [exact Hnd|].
  apply (fmap_sublist f). apply sublist_filter.
Qed.

Lemma filter_parts_distinct (P : MessageWithParts -> Prop)
    `{!forall x, Decision (P x)} (l : list MessageWithParts) :
  parts_distinct l -> parts_distinct (filter P l).
Proof.
  unfold parts_distinct. rewrite !Forall_forall. intros Hl m Hm.
  apply list_elem_of_filter in Hm as [_ Hm]. by apply Hl.
Qed.

(** The identities the store relies on. *)
Lemma desktop_dispatch_ids (asSession : Json -> Session)
    (asMessage : Json -> Message) (asPart : Json -> Part)
    (asTodos : list Json -> list TodoItem) (event : OpencodeEvent) (st : Store) :
  NoDup (session_ids (sessions st)) /\ NoDup (message_ids (messages st))
  /\ parts_distinct (messages st) ->
  let st' := DesktopReconciler.dispatch asSession asMessage asPart asTodos event st in
  NoDup (session_ids (sessions st')) /\ NoDup (message_ids (messages st'))
  /\ parts_distinct (messages st').
Proof.
  intros (Hs & Hm & Hp). cbv zeta. unfold DesktopReconciler.dispatch.
  destruct (is_type event "session.updated" || is_type event "session.created").
  { unfold DesktopReconciler.onSessionUpserted.
    destruct (properties_object event); [|done].
    destruct (get_object _ _); [|done]. simpl.
    split; [by apply upsertSession_NoDup|done]. }
  destruct (is_type event "session.deleted").
  { unfold DesktopReconciler.onSessionDeleted.
    destruct (properties_object event) as [record|]; [|done].
    destruct (get _ record) as [info|]; [|done].
    destruct (get _ info) as [[]|]; try done. destruct (Js.falsy _); [done|]. simpl.
    split; [|done]. by apply (filter_ids_NoDup session_id). }
  destruct (is_type event "message.updated").
  { unfold DesktopReconciler.onMessageUpdated.
    destruct (properties_object event) as [record|]; [|done].
    destruct (get_object _ record) as [raw|]; [|done].
    destruct (modelFromUserMessage (asMessage raw)) as [model|].
    - rewrite is_selected_rememberModel.
      destruct (is_selected st _); [|done]. simpl.
      split; [done|]. split; [by apply upsertMessage_NoDup|].
      by apply upsertMessage_parts_distinct.
    - destruct (is_selected st _); [|done]. simpl.
      split; [done|]. split; [by apply upsertMessage_NoDup|].
      by apply upsertMessage_parts_distinct. }
  destruct (is_type event "message.removed").
  { unfold DesktopReconciler.onMessageRemoved.
    destruct (properties_object event) as [record|]; [|done].
    destruct (get_string (Js.lit "sessionID") record) as [sessionID|]; [|done].
    destruct (get_string (Js.lit "messageID") record); [|done].
    destruct (is_selected st _); [|done]. simpl.
    split; [done|]. split; [|by apply filter_parts_distinct].
    by apply (filter_ids_NoDup (fun m => message_id (info m))). }
  destruct (is_type event "message.part.updated").
  { unfold DesktopReconciler.onPartUpdated.
    destruct (properties_object event) as [record|]; [|done].
    destruct (get_object _ record) as [raw|]; [|done].
    destruct (is_selected st _); [|done]. simpl.
    split; [done|]. rewrite upsertPart_ids.
    split; [done|]. by apply upsertPart_parts_distinct. }
  destruct (is_type event "message.part.removed").
  { unfold DesktopReconciler.onPartRemoved.
    destruct (properties_object event) as [record|]; [|done].
    destruct (get_string (Js.lit "sessionID") record) as [sessionID|]; [|done].
    destruct (get_string (Js.lit "messageID") record); [|done].
    destruct (get_string (Js.lit "partID") record); [|done].
    destruct (is_selected st _ && _ && _); [|done]. simpl.
    split; [done|]. rewrite removePart_ids.
    split; [done|]. by apply removePart_parts_distinct. }
  destruct (is_type event "todo.updated"); [|done].
  unfold DesktopReconciler.onTodoUpdated.
  destruct (properties_object event) as [record|]; [|done].
  destruct (get_string _ record); [|done].
  destruct (get _ record) as [[]|]; try done. by destruct (is_selected st _).
Qed.

(** X28: whatever events arrive, and in whatever order, the desktop store keeps
    its session ids pairwise distinct, the message ids of the transcript
    pairwise distinct, and the part ids of every message pairwise
    distinct. *)
Theorem desktop_events_keep_ids_distinct (asSession : Json -> Session)
    (asMessage : Json -> Message) (asPart : Json -> Part)
    (asTodos : list Json -> list TodoItem) (events : list OpencodeEvent) (st : Store) :
  NoDup (session_ids (sessions st)) /\ NoDup (message_ids (messages st))
  /\ parts_distinct (messages st) ->
  let st' := DesktopReconciler.dispatchAll asSession asMessage asPart asTodos events st in
  NoDup (session_ids (sessions st')) /\ NoDup (message_ids (messages st'))
  /\ parts_distinct (messages st').
Proof.
  cbv zeta. unfold DesktopReconciler.dispatchAll.
  revert st. induction events as [|event events IH]; intros st Hst; [done|].
  simpl. apply IH. by apply desktop_dispatch_ids.
Qed.

Lemma desktop_events_keep_ids_distinct_witness :
  let st' :=
    DesktopReconciler.dispatchAll view_session view_message view_part view_todos
      [ event_of "session.created" [prop "info" (JObject [prop "id" (json_string "s3")])];
        event_of "message.updated" [prop "info" (message_record "m2" "s1" "assistant")];
        event_of "message.part.updated" [prop "part" (part_record "p1" "s1" "m2" "a")];
        event_of "message.part.updated" [prop "part" (part_record "p1" "s1" "m2" "ab")];
        event_of "message.removed" [prop "sessionID" (json_string "s1");
                                    prop "messageID" (json_string "m1")];
        event_of "session.deleted" [prop "info" (JObject [prop "id" (json_string "s2")])] ]
      transcript_store in
  NoDup (session_ids (sessions st')) /\ NoDup (message_ids (messages st'))
  /\ parts_distinct (messages st').
Proof.
  apply desktop_events_keep_ids_distinct.
  split; [|split].
  - apply (bool_decide_unpack _). vm_compute. exact I.
  - apply NoDup_singleton.
  - constructor; [apply NoDup_singleton|constructor].
Defined.

Example desktop_events_scenario :
  let st' :=
    DesktopReconciler.dispatchAll view_session view_message view_part view_todos
      [ event_of "session.created" [prop "info" (JObject [prop "id" (json_string "s3")])];
        event_of "message.updated" [prop "info" (message_record "m2" "s1" "assistant")];
        event_of "message.part.updated" [prop "part" (part_record "p1" "s1" "m2" "a")];
        event_of "message.part.updated" [prop "part" (part_record "p1" "s1" "m2" "ab")];
        event_of "message.removed" [prop "sessionID" (json_string "s1");
                                    prop "messageID" (json_string "m1")];
        event_of "session.deleted" [prop "info" (JObject [prop "id" (json_string "s2")])] ]
      transcript_store in
  session_ids (sessions st') = [Js.lit "s1"; Js.lit "s3"]
  /\ messages st' = [ {| info := sample_message "m2" "s1" assistant None;
                         parts := [ {| part_id := Js.lit "p1"; part_sessionID := Js.lit "s1";
                                       part_messageID := Js.lit "m2"; part_type := text;
                                       part_state := Js.lit "ab" |} ] |} ].
Proof. vm_compute. done. Qed.

(** X29: an event for a user message that names its model makes that model the
    last-known model of the message's session, selected or not, and drops
    the model picked by hand for that session; when the session is the
    selected one, the resolver gives the model of the message from then
    on. *)
Theorem desktop_message_event_sets_model (asSession : Json -> Session)
    (asMessage : Json -> Message) (asPart : Json -> Part)
    (asTodos : list Json -> list TodoItem) (event : OpencodeEvent) (st : Store)
    (record raw : Json) (model : ModelRef) :
  event_type event = Js.lit "message.updated" ->
  properties_object event = Some record ->
  get_object (Js.lit "info") record = Some raw ->
  modelFromUserMessage (asMessage raw) = Some model ->
  let sessionID := message_sessionID (asMessage raw) in
  let st' := DesktopReconciler.dispatch asSession asMessage asPart asTodos event st in
  sessionModelById st' !! sessionID = Some model
  /\ sessionModelOverrideById st' !! sessionID = None
  /\ (forall other, other ≠ sessionID ->
        sessionModelById st' !! other = sessionModelById st !! other
        /\ sessionModelOverrideById st' !! other = sessionModelOverrideById st !! other)
  /\ (is_selected st sessionID = true -> selectedSessionModel st' = model).
Proof.
  intros Htype Hprops Hinfo Hmodel. cbv zeta.
  unfold DesktopReconciler.dispatch, is_type. rewrite Htype.
  change (bool_decide (Js.lit "message.updated" = Js.lit "session.updated")
          || bool_decide (Js.lit "message.updated" = Js.lit "session.created"))
    with false.
  change (bool_decide (Js.lit "message.updated" = Js.lit "session.deleted")) with false.
  change (bool_decide (Js.lit "message.updated" = Js.lit "message.updated")) with true.
  cbv iota. unfold DesktopReconciler.onMessageUpdated.
  rewrite Hprops, Hinfo. cbv zeta. rewrite Hmodel, is_selected_rememberModel.
  set (sessionID := message_sessionID (asMessage raw)).
  assert (forall st2, sessionModelById st2 = sessionModelById (rememberModel sessionID model st) ->
            sessionModelOverrideById st2
            = sessionModelOverrideById (rememberModel sessionID model st) ->
            selectedSessionId st2 = selectedSessionId st ->
            sessionModelById st2 !! sessionID = Some model
            /\ sessionModelOverrideById st2 !! sessionID = None
            /\ (forall other, other ≠ sessionID ->
                  sessionModelById st2 !! other = sessionModelById st !! other
                  /\ sessionModelOverrideById st2 !! other
                     = sessionModelOverrideById st !! other)
            /\ (is_selected st sessionID = true -> selectedSessionModel st2 = model)) as Hall.
  { intros st2 Hknown Hover Hsel.
    split; [rewrite Hknown; apply rememberModel_known|].
    split; [rewrite Hover; apply rememberModel_override|].
    split; [intros other Hne; rewrite Hknown, Hover; by apply rememberModel_other|].
    intros [Hid Hne]%is_selected_eq. unfold selectedSessionModel.
    rewrite Hsel, Hid, (falsy_false _ Hne), Hover, rememberModel_override.
    by rewrite Hknown, rememberModel_known. }
  destruct (is_selected st sessionID); by apply Hall.
Qed.

Lemma desktop_message_event_sets_model_witness :
  let event := event_of "message.updated"
                 [prop "info" (user_message_record "m7" "s2" "openai" "gpt-5")] in
  let st' := DesktopReconciler.dispatch view_session view_message view_part view_todos
               event transcript_store in
  sessionModelById st' !! Js.lit "s2" = Some openai_gpt5
  /\ sessionModelOverrideById st' !! Js.lit "s2" = None
  /\ sessionModelOverrideById st' !! Js.lit "s1" = Some openai_gpt5.
Proof.
  cbv zeta.
  destruct (desktop_message_event_sets_model view_session view_message view_part view_todos
              (event_of "message.updated"
                 [prop "info" (user_message_record "m7" "s2" "openai" "gpt-5")])
              transcript_store
              (JObject [prop "info" (user_message_record "m7" "s2" "openai" "gpt-5")])
              (user_message_record "m7" "s2" "openai" "gpt-5")
              openai_gpt5 eq_refl eq_refl eq_refl eq_refl) as (Hknown & Hover & Hother & _).
  split; [exact Hknown|]. split; [exact Hover|].
  destruct (Hother (Js.lit "s1")) as [_ Hs1].
  - intros Heq. vm_compute in Heq. discriminate.
  - rewrite Hs1. reflexivity.
Defined.

Lemma is_type_other (event : OpencodeEvent) (a b : string) :
  event_type event = Js.lit a -> bool_decide (Js.lit a = Js.lit b) = false ->
  is_type event b = false.
Proof. unfold is_type. by intros ->. Qed.

Lemma is_type_same (event : OpencodeEvent) (a : string) :
  event_type event = Js.lit a -> is_type event a = true.
Proof. unfold is_type. intros ->. by apply bool_decide_eq_true_2. Qed.

Lemma upsertMessage_absent (l : list MessageWithParts) (nextInfo : Message) :
  message_id nextInfo ∉ message_ids l ->
  upsertMessage l nextInfo = l ++ [{| info := nextInfo; parts := [] |}].
Proof.
  unfold message_ids. induction l as [|x l IH]; intros Hfresh; [done|].
  rewrite upsertMessage_cons. cbn [map] in Hfresh.
  apply not_elem_of_cons in Hfresh as [Hne Hfresh].
  rewrite (proj2 (same_id_false _ _)) by congruence.
  simpl. by rewrite IH.
Qed.

Lemma upsertPart_absent (l : list MessageWithParts) (p : Part) :
  part_messageID p ∉ message_ids l -> upsertPart l p = l.
Proof.
  unfold message_ids. induction l as [|x l IH]; intros Hfresh; [done|].
  rewrite upsertPart_cons. cbn [map] in Hfresh.
  apply not_elem_of_cons in Hfresh as [Hne Hfresh].
  rewrite (proj2 (same_id_false _ _)) by congruence.
  by rewrite IH.
Qed.

Lemma upsertPart_last (l : list MessageWithParts) (x : MessageWithParts) (p : Part) :
  part_messageID p ∉ message_ids l -> message_id (info x) = part_messageID p ->
  upsertPart (l ++ [x]) p = l ++ [{| info := info x; parts := upsertPartIn (parts x) p |}].
Proof.
  unfold message_ids. induction l as [|y l IH]; intros Hfresh Hid.
  - simpl. rewrite upsertPart_cons. by rewrite (proj2 (same_id_true _ _) Hid).
  - cbn [map] in Hfresh. apply not_elem_of_cons in Hfresh as [Hne Hfresh].
    simpl. rewrite upsertPart_cons.
    rewrite (proj2 (same_id_false _ _)) by congruence.
    by rewrite IH.
Qed.

(** X30: in the extension a part reaches the transcript only when the event of
    its message came first: a message event of the selected session
    followed by the event of one of its parts leaves the message with that
    part at the end of the transcript, and the same two events the other
    way round leave the message with no part, the part being lost. *)
Theorem extension_part_needs_its_message (asSession : Json -> Session)
    (asMessage : Json -> Message) (asPart : Json -> Part)
    (onMessage onPart : OpencodeEvent) (rawMessage rawPart : Json) (st : Store) :
  event_type onMessage = Js.lit "message.created"
  \/ event_type onMessage = Js.lit "message.updated" ->
  event_type onPart = Js.lit "message.part.created"
  \/ event_type onPart = Js.lit "message.part.updated" ->
  ExtensionReconciler.get_truthy (Js.lit "info") (event_properties onMessage)
  = Some rawMessage ->
  ExtensionReconciler.get_truthy (Js.lit "info") (event_properties onPart) = Some rawPart ->
  selectedSessionId st = Some (message_sessionID (asMessage rawMessage)) ->
  (message_id (asMessage rawMessage) ∉ message_ids (messages st)) ->
  part_messageID (asPart rawPart) = message_id (asMessage rawMessage) ->
  let dispatch := ExtensionReconciler.dispatch asSession asMessage asPart in
  messages (dispatch onPart (dispatch onMessage st))
  = messages st ++ [{| info := asMessage rawMessage; parts := [asPart rawPart] |}]
  /\ messages (dispatch onMessage (dispatch onPart st))
     = messages st ++ [{| info := asMessage rawMessage; parts := [] |}].
Proof.
  intros HtypeM HtypeP HrawM HrawP Hsel Hfresh Hid. cbv zeta.
  assert (forall st0, selectedSessionId st0 = selectedSessionId st ->
            ExtensionReconciler.dispatch asSession asMessage asPart onMessage st0
            = setMessages (upsertMessage (messages st0) (asMessage rawMessage)) st0) as HM.
  { intros st0 Hsel0. unfold ExtensionReconciler.dispatch.
    assert (is_type onMessage "session.created" || is_type onMessage "session.updated"
            = false) as ->.
    { destruct HtypeM as [H|H];
        by rewrite !(is_type_other _ _ _ H). }
    assert (is_type onMessage "message.created" || is_type onMessage "message.updated"
            = true) as ->.
    { destruct HtypeM as [H|H]; rewrite (is_type_same _ _ H); [done|apply orb_true_r]. }
    rewrite HrawM. cbv zeta. rewrite Hsel0, Hsel.
    by rewrite bool_decide_eq_true_2. }
  assert (forall st0,
            ExtensionReconciler.dispatch asSession asMessage asPart onPart st0
            = setMessages (upsertPart (messages st0) (asPart rawPart)) st0) as HP.
  { intros st0. unfold ExtensionReconciler.dispatch.
    assert (is_type onPart "session.created" || is_type onPart "session.updated"
            = false) as ->.
    { destruct HtypeP as [H|H]; by rewrite !(is_type_other _ _ _ H). }
    assert (is_type onPart "message.created" || is_type onPart "message.updated"
            = false) as ->.
    { destruct HtypeP as [H|H]; by rewrite !(is_type_other _ _ _ H). }
    assert (is_type onPart "message.part.created" || is_type onPart "message.part.updated"
            = true) as ->.
    { destruct HtypeP as [H|H]; rewrite (is_type_same _ _ H); [done|apply orb_true_r]. }
    by rewrite HrawP. }
  split.
  - rewrite HP, (HM st) by done. simpl.
    rewrite upsertMessage_absent by done.
    rewrite upsertPart_last; [done| |done]. by rewrite Hid.
  - rewrite (HM _), HP by (by rewrite HP). simpl.
    rewrite upsertPart_absent by (by rewrite Hid).
    by rewrite upsertMessage_absent.
Qed.

Lemma extension_part_needs_its_message_witness :
  let dispatch := ExtensionReconciler.dispatch view_session view_message view_part in
  let onMessage := event_of "message.created"
                     [prop "info" (message_record "m2" "s1" "assistant")] in
  let onPart := event_of "message.part.updated"
                  [prop "info" (part_record "p7" "s1" "m2" "Hello")] in
  messages (dispatch onPart (dispatch onMessage transcript_store))
  = stored_messages
    ++ [{| info := sample_message "m2" "s1" assistant None;
           parts := [view_part (part_record "p7" "s1" "m2" "Hello")] |}]
  /\ messages (dispatch onMessage (dispatch onPart transcript_store))
     = stored_messages ++ [{| info := sample_message "m2" "s1" assistant None; parts := [] |}].
Proof.
  cbv zeta.
  apply (extension_part_needs_its_message view_session view_message view_part
           (event_of "message.created" [prop "info" (message_record "m2" "s1" "assistant")])
           (event_of "message.part.updated" [prop "info" (part_record "p7" "s1" "m2" "Hello")])
           (message_record "m2" "s1" "assistant") (part_record "p7" "s1" "m2" "Hello")
           transcript_store).
  - by left.
  - by right.
  - reflexivity.
  - reflexivity.
  - reflexivity.
  - apply (bool_decide_eq_false_1 _). vm_compute. reflexivity.
  - reflexivity.
Defined.

(** ** Status of a session and of the client *)

(** A session status shown by the client is one of three words, and it is
    running only for a status object of type busy. *)
Lemma normalizeSessionStatus_values (status : option Json) :
  normalizeSessionStatus status ∈ [Js.lit "idle"; Js.lit "running"; Js.lit "retry"]
  /\ (normalizeSessionStatus status = Js.lit "running" ->
      exists record, status = Some record
                     /\ get (Js.lit "type") record = Some (JString (Js.lit "busy"))).
Proof.
  unfold normalizeSessionStatus.
  destruct status as [record|]; [|split; [set_solver|done]].
  destruct (is_object record); [|split; [set_solver|done]]. cbn [negb].
  destruct (get (Js.lit "type") record) as [[| | |t| |]|] eqn:Htype;
    try (split; [set_solver|done]).
  case_bool_decide as Hbusy.
  { subst t. split; [set_solver|]. intros _. by exists record. }
  case_bool_decide; [split; [set_solver|done]|].
  case_bool_decide; split; try set_solver; done.
Qed.

(** A new task can be started unless the client is busy with something
    other than a run. *)
Lemma newTaskDisabled_spec (busy : bool) (label : option jsstring) :
  newTaskDisabled busy label
  = busy && negb (bool_decide (label = Some (Js.lit "Running"))).
Proof.
  unfold newTaskDisabled. destruct busy; [|done]. cbn [andb].
  case_bool_decide as Hrun; [done|]. cbn [negb].
  by destruct (_ || _).
Qed.
